(** * A shallow embedding of [nn3.py]: a text-game engine with pluggable modules

    The Python program keeps three kinds of mutable objects (engines, map grids
    and input maps), reads lines from the console and prints lines to it, and
    signals failures with exceptions.  The embedding is a state-and-exception
    monad over a [World] made of one store per class of mutable object, the
    console input still to be read and the console output written so far.
    Every method of the source is a definition of the same name whose first
    argument [self] is a reference into the matching store. *)

From stdpp Require Import base tactics option list functions gmap strings pretty.
From Stdlib Require Import ZArith Lia.
From Stdlib Require Ascii.

Open Scope Z_scope.
Open Scope string_scope.

(** ** Python values, exceptions and results *)

(** The exception classes the program can meet.  All of them derive from
    Python's [Exception], the class the engine's [except] clause names. *)
Inductive ExcKind : Type :=
| AttributeError
| IndexError
| KeyError
| TypeError
| EOFError.

(** An exception object: its class and the text [str(e)] gives. *)
Record Exception : Type := mkException { exc_kind : ExcKind; exc_msg : string }.

Inductive Result (A : Type) : Type :=
| Ok (a : A)
| Raise (e : Exception).
Arguments Ok {A} a.
Arguments Raise {A} e.

Definition no_attribute (cls attr : string) : Exception :=
  mkException AttributeError ("'" +:+ cls +:+ "' object has no attribute '" +:+ attr +:+ "'").

Definition is_raise {A} (r : Result A) : bool :=
  match r with Raise _ => true | Ok _ => false end.

(** ** Pieces *)

(** [class Command(Piece)]: the only concrete command of the source is
    [QuitCommand], which keeps a reference to the engine it stops. *)
Inductive Command : Type :=
| QuitCommand (engine : nat).

(** The concrete subclasses of [Piece]. *)
Inductive Piece : Type :=
| PlayerPiece
| RoomPiece (room_name description : string)
| CommandPiece (c : Command).

(** [Vector]: two optional coordinates. *)
Record Vector : Type := mkVector { x : option Z; y : option Z }.

(** [Module]: a reference to one of the two concrete module classes. *)
Inductive Module : Type :=
| MapGridRef (r : nat)
| InputMapRef (r : nat).

(** The Python objects handed to [add_module] and [add_command], which test
    the class of their argument with [isinstance]. *)
Inductive PyObj : Type :=
| PyNone
| PyInt (z : Z)
| PyStr (s : string)
| PyVector (v : Vector)
| PyPiece (p : Piece)
| PyModule (m : Module)
| PyEngine (e : nat).

Definition Command_class_name (c : Command) : string :=
  match c with QuitCommand _ => "QuitCommand" end.

Definition class_name (p : Piece) : string :=
  match p with
  | PlayerPiece => "PlayerPiece"
  | RoomPiece _ _ => "RoomPiece"
  | CommandPiece c => Command_class_name c
  end.

(** [Piece.__init__] stores one dict under [self.attributes].  [PlayerPiece]
    and [RoomPiece] call it; [Command.__init__] does not call
    [super().__init__], so a command has no [attributes]. *)
Definition Piece_init (name description : string) : gmap string string :=
  <["name" := name]> (<["description" := description]> ∅).

Definition get_attributes (p : Piece) : Result (gmap string string) :=
  match p with
  | PlayerPiece => Ok (Piece_init "Player" "The main character of the game.")
  | RoomPiece room_name description => Ok (Piece_init room_name description)
  | CommandPiece c => Raise (no_attribute (Command_class_name c) "attributes")
  end.

(** [d[key]] on a dict of strings; [str] of a [KeyError] is the key's repr. *)
Definition dict_getitem (d : gmap string string) (key : string) : Result string :=
  match d !! key with
  | Some v => Ok v
  | None => Raise (mkException KeyError ("'" +:+ key +:+ "'"))
  end.

(** [piece.name]: no class of the source defines [name], neither as an
    instance attribute ([__init__] sets [attributes], [data], [trigger],
    [engine]) nor as a method, so the lookup fails for every piece. *)
Definition get_name (p : Piece) : Result string :=
  Raise (no_attribute (class_name p) "name").

(** [command.trigger], set by [Command.__init__]; [QuitCommand] passes 'quit'. *)
Definition trigger (c : Command) : string :=
  match c with QuitCommand _ => "quit" end.

(** ** Mutable objects and the world *)

Record GameEngine : Type := mkGameEngine {
  modules : list Module;
  running : bool
}.

Record MapGridModule : Type := mkMapGridModule {
  size_vector : Vector;
  map_grid : list (list (option Piece))
}.

Record InputMapModule : Type := mkInputMapModule {
  commands : gmap string Command
}.

(** What was written to the console: a [print]ed line, or the prompt of
    [input], which ends in no newline. *)
Inductive Output : Type :=
| Line (s : string)
| Prompt (s : string).

Record World : Type := mkWorld {
  engines : nat -> GameEngine;
  grids : nat -> MapGridModule;
  input_maps : nat -> InputMapModule;
  next_ref : nat;
  stdin : list string;
  stdout : list Output
}.

Definition with_engine (e : nat) (g : GameEngine) (w : World) : World :=
  mkWorld (<[e := g]> (engines w)) (grids w) (input_maps w) (next_ref w) (stdin w) (stdout w).

Definition with_grid (r : nat) (g : MapGridModule) (w : World) : World :=
  mkWorld (engines w) (<[r := g]> (grids w)) (input_maps w) (next_ref w) (stdin w) (stdout w).

Definition with_input_map (r : nat) (m : InputMapModule) (w : World) : World :=
  mkWorld (engines w) (grids w) (<[r := m]> (input_maps w)) (next_ref w) (stdin w) (stdout w).

Definition with_stdin (l : list string) (w : World) : World :=
  mkWorld (engines w) (grids w) (input_maps w) (next_ref w) l (stdout w).

Definition with_stdout (l : list Output) (w : World) : World :=
  mkWorld (engines w) (grids w) (input_maps w) (next_ref w) (stdin w) l.

Definition with_next_ref (n : nat) (w : World) : World :=
  mkWorld (engines w) (grids w) (input_maps w) n (stdin w) (stdout w).

(** ** The monad: world passing with exceptions

    A raised exception keeps the world as the failing statement left it:
    Python undoes nothing. *)
Definition M (A : Type) : Type := World -> Result A * World.

#[global] Instance M_ret : MRet M := fun A a w => (Ok a, w).

#[global] Instance M_bind : MBind M := fun A B f m w =>
  match m w with
  | (Ok a, w') => f a w'
  | (Raise e, w') => (Raise e, w')
  end.

Definition raise {A} (e : Exception) : M A := fun w => (Raise e, w).

(** [try: body except Exception as e: handler(e)] *)
Definition try_except {A} (body : M A) (handler : Exception -> M A) : M A := fun w =>
  match body w with
  | (Ok a, w') => (Ok a, w')
  | (Raise e, w') => handler e w'
  end.

Definition lift {A} (r : Result A) : M A := fun w => (r, w).

Definition get_world : M World := fun w => (Ok w, w).

Definition modify (f : World -> World) : M unit := fun w => (Ok tt, f w).

(** The world after [lines] more were written to the console. *)
Definition write (lines : list Output) (w : World) : World :=
  with_stdout (stdout w ++ lines) w.

(** [print(s)] *)
Definition print (s : string) : M unit :=
  modify (write [Line s]).

(** [input(prompt)]: writes the prompt, then reads one line; at the end of
    the input it raises [EOFError]. *)
Definition input (prompt : string) : M string := fun w =>
  let w' := write [Prompt prompt] w in
  match stdin w' with
  | line :: rest => (Ok line, with_stdin rest w')
  | [] => (Raise (mkException EOFError "EOF when reading a line"), w')
  end.

(** A fresh object reference. *)
Definition alloc : M nat := fun w => (Ok (next_ref w), with_next_ref (S (next_ref w)) w).

(** ** Strings and lists as Python has them *)

(** The ASCII characters [str.isspace] accepts. *)
Definition is_whitespace (c : Ascii.ascii) : bool :=
  let n := Ascii.nat_of_ascii c in
  ((9 <=? n)%nat && (n <=? 13)%nat) || ((28 <=? n)%nat && (n <=? 32)%nat).

Fixpoint lstrip (s : string) : string :=
  match s with
  | String c s' => if is_whitespace c then lstrip s' else s
  | EmptyString => EmptyString
  end.

(** [s.strip()] *)
Definition strip (s : string) : string :=
  String.rev (lstrip (String.rev (lstrip s))).

Definition lower_ascii (c : Ascii.ascii) : Ascii.ascii :=
  let n := Ascii.nat_of_ascii c in
  if ((65 <=? n)%nat && (n <=? 90)%nat) then Ascii.ascii_of_nat (n + 32) else c.

(** [s.lower()], on ASCII letters *)
Fixpoint lower (s : string) : string :=
  match s with
  | String c s' => String (lower_ascii c) (lower s')
  | EmptyString => EmptyString
  end.

(** [sep.join(l)] *)
Fixpoint join (sep : string) (l : list string) : string :=
  match l with
  | [] => ""
  | [s] => s
  | s :: l' => s +:+ sep +:+ join sep l'
  end.

(** [str(z)] of an int *)
Definition str_int (z : Z) : string := pretty z.

(** The position a Python index denotes in a list of length [len]: negative
    indices count from the end, and anything outside [-len, len) is out of
    range. *)
Definition py_index (len : nat) (i : Z) : option nat :=
  if decide (0 <= i < Z.of_nat len) then Some (Z.to_nat i)
  else if decide (- Z.of_nat len <= i < 0) then Some (Z.to_nat (Z.of_nat len + i))
  else None.

(** The item [l[i]] together with its position in [l]. *)
Definition list_item {A} (l : list A) (i : Z) : Result (nat * A) :=
  match n ← py_index (length l) i; a ← l !! n; Some (n, a) with
  | Some item => Ok item
  | None => Raise (mkException IndexError "list index out of range")
  end.

(** [l[i]] *)
Definition list_getitem {A} (l : list A) (i : Z) : Result A :=
  match list_item l i with
  | Ok item => Ok item.2
  | Raise e => Raise e
  end.

(** [l[i] = a] *)
Definition list_setitem {A} (l : list A) (i : Z) (a : A) : Result (list A) :=
  match py_index (length l) i with
  | Some n => Ok (<[n := a]> l)
  | None => Raise (mkException IndexError "list assignment index out of range")
  end.

(** [range(n)]; [n] is an attribute that may hold [None]. *)
Definition py_range (n : option Z) : Result (list Z) :=
  match n with
  | Some n => Ok (Z.of_nat <$> seq 0 (Z.to_nat n))
  | None => Raise (mkException TypeError "'NoneType' object cannot be interpreted as an integer")
  end.

(** A [for] loop whose body may [return]: the body answers [Some v] to
    return [v] from the enclosing function and [None] to go on. *)
Fixpoint for_return {A R} (l : list A) (body : A -> M (option R)) : M (option R) :=
  match l with
  | [] => mret None
  | a :: l' =>
      r ← body a;
      match r with
      | Some v => mret (Some v)
      | None => for_return l' body
      end
  end.

(** A [for] loop with no [return] in its body. *)
Fixpoint for_each {A} (l : list A) (body : A -> M unit) : M unit :=
  match l with
  | [] => mret tt
  | a :: l' => body a;; for_each l' body
  end.

(** A generator expression evaluated left to right until an item raises. *)
Fixpoint map_result {A B} (f : A -> Result B) (l : list A) : Result (list B) :=
  match l with
  | [] => Ok []
  | a :: l' =>
      match f a with
      | Raise e => Raise e
      | Ok b =>
          match map_result f l' with
          | Raise e => Raise e
          | Ok bs => Ok (b :: bs)
          end
      end
  end.

(** ** MapGridModule *)

(** [Vector.is_valid] *)
Definition is_valid (v : Vector) : bool :=
  bool_decide (x v ≠ None) && bool_decide (y v ≠ None).

(** [MapGridModule.__init__(size_x, size_y)] *)
Definition MapGridModule_init (size_x size_y : Z) : MapGridModule :=
  mkMapGridModule (mkVector (Some size_x) (Some size_y))
    (replicate (Z.to_nat size_y) (replicate (Z.to_nat size_x) None)).

Definition MapGridModule_new (size_x size_y : Z) : M nat :=
  self ← alloc;
  modify (with_grid self (MapGridModule_init size_x size_y));;
  mret self.

(** A list subscript must be an int: a coordinate that holds [None] is
    refused with a [TypeError]. *)
Definition as_index (coordinate : option Z) : Result Z :=
  match coordinate with
  | Some i => Ok i
  | None => Raise (mkException TypeError "list indices must be integers or slices, not NoneType")
  end.

(** [self.map_grid[location.y][location.x]] *)
Definition grid_getitem (self : nat) (location : Vector) : M (option Piece) :=
  w ← get_world;
  iy ← lift (as_index (y location));
  row ← lift (list_getitem (map_grid (grids w self)) iy);
  ix ← lift (as_index (x location));
  lift (list_getitem row ix).

(** [self.map_grid[location.y][location.x] = value]: the row object is
    fetched, then updated in place.  The rows of a grid are distinct list
    objects (the constructor builds each one anew), so the update shows in
    the fetched row alone, which is stored back at its own position. *)
Definition grid_setitem (self : nat) (location : Vector) (value : option Piece) : M unit :=
  w ← get_world;
  let g := grids w self in
  iy ← lift (as_index (y location));
  row ← lift (list_item (map_grid g) iy);
  ix ← lift (as_index (x location));
  row' ← lift (list_setitem row.2 ix value);
  modify (with_grid self (mkMapGridModule (size_vector g) (<[row.1 := row']> (map_grid g)))).

(** [MapGridModule.add_to_first_empty_space] *)
Definition add_to_first_empty_space (self : nat) (element : Piece) : M bool :=
  w ← get_world;
  ys ← lift (py_range (y (size_vector (grids w self))));
  r ← for_return ys (fun iy =>
         w ← get_world;
         xs ← lift (py_range (x (size_vector (grids w self))));
         for_return xs (fun ix =>
           let here := mkVector (Some ix) (Some iy) in
           cell ← grid_getitem self here;
           match cell with
           | None => grid_setitem self here (Some element);; mret (Some true)
           | Some _ => mret None
           end));
  mret (default false r).

(** [str] of a coordinate inside an f-string *)
Definition str_coordinate (coordinate : option Z) : string :=
  match coordinate with
  | Some i => str_int i
  | None => "None"
  end.

(** [location and location.is_valid()]: a [Vector] object is truthy, [None]
    is not. *)
Definition valid_location (location : option Vector) : option Vector :=
  match location with
  | Some v => if is_valid v then Some v else None
  | None => None
  end.

(** [MapGridModule.add_room]; [location] is [None] when the argument is left
    out. *)
Definition add_room (self : nat) (room_piece : Piece) (location : option Vector) : M unit :=
  match valid_location location with
  | Some location =>
      cell ← grid_getitem self location;
      match cell with
      | None =>
          grid_setitem self location (Some room_piece);;
          attributes ← lift (get_attributes room_piece);
          name ← lift (dict_getitem attributes "name");
          print ("Room '" +:+ name +:+ "' added at (" +:+ str_coordinate (x location)
                 +:+ ", " +:+ str_coordinate (y location) +:+ ").")
      | Some _ =>
          print ("Location (" +:+ str_coordinate (x location) +:+ ", "
                 +:+ str_coordinate (y location) +:+ ") is already occupied.")
      end
  | None =>
      placed ← add_to_first_empty_space self room_piece;
      if negb placed
      then print "Currently there isn't any room available inside your grid. Please resize the grid to add more room."
      else mret tt
  end.

(** [MapGridModule.remove_room] *)
Definition remove_room (self : nat) (location : option Vector) : M unit :=
  match valid_location location with
  | Some location =>
      cell ← grid_getitem self location;
      match cell with
      | Some room_piece =>
          grid_setitem self location None;;
          attributes ← lift (get_attributes room_piece);
          name ← lift (dict_getitem attributes "name");
          print ("Room '" +:+ name +:+ "' removed.")
      | None => mret tt
      end
  | None => mret tt
  end.

(** The text of one cell in [execute]: [room.name if room else "Empty"]. *)
Definition cell_text (room : option Piece) : Result string :=
  match room with
  | Some p => get_name p
  | None => Ok "Empty"
  end.

(** [MapGridModule.execute] *)
Definition MapGridModule_execute (self : nat) : M unit :=
  print "Map Grid:";;
  w ← get_world;
  for_each (map_grid (grids w self)) (fun row =>
    cells ← lift (map_result cell_text row);
    print (join " | " cells)).

(** ** Commands and InputMapModule *)

Definition set_running (engine : nat) (b : bool) : M unit :=
  modify (fun w => with_engine engine (mkGameEngine (modules (engines w engine)) b) w).

(** [QuitCommand.update] *)
Definition QuitCommand_update (engine : nat) : M unit :=
  print "Thank you for playing!";;
  set_running engine false.

(** [command.update()], the effect of a command *)
Definition Command_update (c : Command) : M unit :=
  match c with QuitCommand engine => QuitCommand_update engine end.


(** [command.execute()]: [Command] and [QuitCommand] define [update] and
    [validate], and [Piece] defines [update]; none defines [execute]. *)
Definition Command_execute (c : Command) : M unit :=
  raise (no_attribute (Command_class_name c) "execute").

Definition InputMapModule_new : M nat :=
  self ← alloc;
  modify (with_input_map self (mkInputMapModule ∅));;
  mret self.

(** [isinstance(command, Command)], with the command when it holds *)
Definition as_Command (o : PyObj) : option Command :=
  match o with
  | PyPiece (CommandPiece c) => Some c
  | _ => None
  end.

(** [InputMapModule.add_command] *)
Definition add_command (self : nat) (command : PyObj) : M unit :=
  match as_Command command with
  | Some c =>
      modify (fun w =>
        with_input_map self (mkInputMapModule (<[trigger c := c]> (commands (input_maps w self)))) w)
  | None => raise (mkException TypeError "Only instances of Command can be added as commands.")
  end.

(** [InputMapModule.process_command]; a command object is truthy. *)
Definition process_command (self : nat) (user_input : string) : M unit :=
  w ← get_world;
  match commands (input_maps w self) !! user_input with
  | Some command => Command_execute command
  | None => print "This command cannot be understood."
  end.

(** [self.handle_input(user_input)]: [InputMapModule] defines [add_command],
    [process_command] and [execute], and [Module] defines [execute]; the
    attribute lookup fails before any call is made. *)
Definition handle_input (self : nat) (user_input : string) : M unit :=
  raise (no_attribute "InputMapModule" "handle_input").

(** [InputMapModule.execute] *)
Definition InputMapModule_execute (self : nat) : M unit :=
  line ← input ">: ";
  let user_input := lower (strip line) in
  handle_input self user_input.

(** ** GameEngine *)

Definition GameEngine_new : M nat :=
  self ← alloc;
  modify (with_engine self (mkGameEngine [] true));;
  mret self.

(** [isinstance(module, Module)], with the module when it holds *)
Definition as_Module (o : PyObj) : option Module :=
  match o with
  | PyModule m => Some m
  | _ => None
  end.

(** [GameEngine.add_module] *)
Definition add_module (self : nat) (module : PyObj) : M unit :=
  match as_Module module with
  | Some m =>
      modify (fun w =>
        with_engine self (mkGameEngine (modules (engines w self) ++ [m]) (running (engines w self))) w)
  | None => raise (mkException TypeError "Only instances of Module can be added as modules.")
  end.

(** [module.execute()], by the class of the module *)
Definition Module_execute (m : Module) : M unit :=
  match m with
  | MapGridRef r => MapGridModule_execute r
  | InputMapRef r => InputMapModule_execute r
  end.

(** [GameEngine.update_modules].  No [execute] of the source changes a
    module list, so the list read at the start of the loop is the list the
    loop walks. *)
Definition update_modules (self : nat) : M unit :=
  w ← get_world;
  for_each (modules (engines w self)) Module_execute.

(** [GameEngine.handle_error] *)
Definition handle_error (self : nat) (message : Exception) : M unit :=
  print ("An error occurred: " +:+ exc_msg message);;
  set_running self false.

(** One pass through the body of the [while] loop of [run]. *)
Definition tick (self : nat) : M unit :=
  try_except (update_modules self) (handle_error self).

(** [while self.running: ...], with [fuel] bounding the number of ticks.
    The answer is [Some n] when the loop ended by itself after [n] ticks and
    [None] when a further tick was due with no fuel left. *)
Fixpoint run_loop (fuel : nat) (self : nat) : M (option nat) :=
  w ← get_world;
  if running (engines w self)
  then
    match fuel with
    | O => mret None
    | S fuel' => tick self;; n ← run_loop fuel' self; mret (S <$> n)
    end
  else mret (Some O).

(** [GameEngine.run] *)
Definition run (fuel : nat) (self : nat) : M (option nat) :=
  print "Game starting. Type 'quit' to exit.";;
  run_loop fuel self.

(** [main] *)
Definition main (fuel : nat) : M (option nat) :=
  engine ← GameEngine_new;
  let room1 := RoomPiece "Lab 1" "A dark, spooky forest with tall trees." in
  let room2 := RoomPiece "Lab 2" "A calm river flows here." in
  map_module ← MapGridModule_new 2 2;
  add_room map_module room1 (Some (mkVector (Some 0) (Some 0)));;
  add_room map_module room2 (Some (mkVector (Some 1) (Some 0)));;
  add_module engine (PyModule (MapGridRef map_module));;
  input_map_module ← InputMapModule_new;
  add_command input_map_module (PyPiece (CommandPiece (QuitCommand engine)));;
  add_module engine (PyModule (InputMapRef input_map_module));;
  run fuel engine.

(** The world a fresh interpreter starts in: nothing allocated, nothing
    printed, [lines] waiting on the console. *)
Definition initial_world (lines : list string) : World :=
  mkWorld (fun _ => mkGameEngine [] false)
          (fun _ => mkMapGridModule (mkVector None None) [])
          (fun _ => mkInputMapModule ∅)
          0%nat lines [].

(** ** Vocabulary of the statements *)

(** A vector with both coordinates set. *)
Definition at_xy (lx ly : Z) : Vector := mkVector (Some lx) (Some ly).

(** A grid as [MapGridModule(N, M)] builds it and the methods keep it: [M]
    rows of [N] cells each (none when the size is negative). *)
Definition wf_grid (N M : Z) (g : MapGridModule) : Prop :=
  size_vector g = at_xy N M ∧
  length (map_grid g) = Z.to_nat M ∧
  Forall (fun row => length row = Z.to_nat N) (map_grid g).

(** The content of the cell in column [cx] of row [cy], when there is one. *)
Definition cell (g : MapGridModule) (cx cy : nat) : option (option Piece) :=
  row ← map_grid g !! cy; row !! cx.

(** The grid with the cell in column [cx] of row [cy] replaced. *)
Definition set_cell (g : MapGridModule) (cx cy : nat) (v : option Piece) : MapGridModule :=
  mkMapGridModule (size_vector g) (alter (<[cx := v]>) cy (map_grid g)).

(** The cell the subscripts [[ly][lx]] denote, when both are in range. *)
Definition locate (g : MapGridModule) (lx ly : Z) : option (nat * nat) :=
  cy ← py_index (length (map_grid g)) ly;
  row ← map_grid g !! cy;
  cx ← py_index (length row) lx;
  Some (cx, cy).

(** The position a subscript within [-len, len) denotes: a negative one
    counts from the far end. *)
Definition wrap (len i : Z) : nat :=
  Z.to_nat (if decide (i < 0) then len + i else i).

(** Row-major order on cells named (column, row): a cell comes before
    another when its row is higher up, or in the same row further left. *)
Definition before (cx' cy' cx cy : nat) : Prop :=
  (cy' < cy)%nat ∨ (cy' = cy ∧ (cx' < cx)%nat).

Definition first_empty (g : MapGridModule) (cx cy : nat) : Prop :=
  cell g cx cy = Some None ∧
  ∀ cx' cy' c, before cx' cy' cx cy → cell g cx' cy' = Some c → c ≠ None.

Definition full (g : MapGridModule) : Prop :=
  ∀ cx cy c, cell g cx cy = Some c → c ≠ None.

(** What a computation answers and what it writes to the console. *)
Definition output_of {A} (m : M A) (w : World) : Result A * list Output :=
  let rw := m w in (rw.1, drop (length (stdout w)) (stdout rw.2)).

(** Two worlds that hold the same objects and the same pending input; only
    the console output may differ. *)
Definition same_objects (w1 w2 : World) : Prop :=
  (∀ r, engines w1 r = engines w2 r) ∧
  (∀ r, grids w1 r = grids w2 r) ∧
  (∀ r, input_maps w1 r = input_maps w2 r) ∧
  next_ref w1 = next_ref w2 ∧
  stdin w1 = stdin w2.

(** The three messages of [add_room] and [remove_room] at a valid location. *)
Definition msg_added (name : string) (lx ly : Z) : Output :=
  Line ("Room '" +:+ name +:+ "' added at (" +:+ str_int lx +:+ ", " +:+ str_int ly +:+ ").").

Definition msg_occupied (lx ly : Z) : Output :=
  Line ("Location (" +:+ str_int lx +:+ ", " +:+ str_int ly +:+ ") is already occupied.").

Definition msg_removed (name : string) : Output :=
  Line ("Room '" +:+ name +:+ "' removed.").

(** The bodies of the two loops of [add_to_first_empty_space], named so
    that the loop lemmas can speak of them. *)
Definition scan_cell (self : nat) (element : Piece) (iy ix : Z) : M (option bool) :=
  let here := mkVector (Some ix) (Some iy) in
  cell ← grid_getitem self here;
  match cell with
  | None => grid_setitem self here (Some element);; mret (Some true)
  | Some _ => mret None
  end.

Definition scan_row (self : nat) (element : Piece) (iy : Z) : M (option bool) :=
  w ← get_world;
  xs ← lift (py_range (x (size_vector (grids w self))));
  for_return xs (scan_cell self element iy).

(** What the loop of [MapGridModule.execute] answers and prints for the
    rows it is given, as a function of the rows alone. *)
Fixpoint render (rows : list (list (option Piece))) : Result unit * list Output :=
  match rows with
  | [] => (Ok tt, [])
  | row :: rows' =>
      match map_result cell_text row with
      | Raise e => (Raise e, [])
      | Ok cells => let r := render rows' in (r.1, Line (join " | " cells) :: r.2)
      end
  end.

(** The line [execute] prints for a row of [n] empty cells. *)
Definition empty_line (n : nat) : Output := Line (join " | " (replicate n "Empty")).

(** The world [handle_error] leaves: the message on the console and the
    engine stopped. *)
Definition stopped_by (self : nat) (message : Exception) (w : World) : World :=
  with_engine self (mkGameEngine (modules (engines w self)) false)
    (write [Line ("An error occurred: " +:+ exc_msg message)] w).

(** The calls that change a grid, and the world after one of them, whether
    it returned or raised. *)
Inductive GridCall : Type :=
| CallAddRoom (room_piece : Piece) (location : option Vector)
| CallRemoveRoom (location : option Vector)
| CallAddToFirstEmptySpace (element : Piece).

Definition after_call (self : nat) (w : World) (c : GridCall) : World :=
  match c with
  | CallAddRoom room_piece location => (add_room self room_piece location w).2
  | CallRemoveRoom location => (remove_room self location w).2
  | CallAddToFirstEmptySpace element => (add_to_first_empty_space self element w).2
  end.

(** ** Example worlds *)

Definition lab1 : Piece := RoomPiece "Lab 1" "A dark, spooky forest with tall trees.".
Definition lab2 : Piece := RoomPiece "Lab 2" "A calm river flows here.".

(** The map grid of [main], built the way [main] builds it: object 0 is a
    2x2 grid with "Lab 1" at (0, 0) and "Lab 2" at (1, 0). *)
Definition grid_world : World :=
  ((map_module ← MapGridModule_new 2 2;
    add_room map_module lab1 (Some (at_xy 0 0));;
    add_room map_module lab2 (Some (at_xy 1 0))) (initial_world [])).2.

(** An engine (object 0) whose only module is an input map (object 1) that
    holds the quit command, with [lines] waiting on the console. *)
Definition console_world (lines : list string) : World :=
  ((engine ← GameEngine_new;
    input_map_module ← InputMapModule_new;
    add_command input_map_module (PyPiece (CommandPiece (QuitCommand engine)));;
    add_module engine (PyModule (InputMapRef input_map_module))) (initial_world lines)).2.

(** ** The remaining methods of the pieces *)

(** [piece.description]: like [name], an attribute no class defines. *)
Definition get_description (p : Piece) : Result string :=
  Raise (no_attribute (class_name p) "description").

(** [PlayerPiece.update] *)
Definition PlayerPiece_update (p : Piece) : M unit :=
  name ← lift (get_name p);
  print (name +:+ " is ready for action.").

(** [RoomPiece.describe_room] *)
Definition describe_room (p : Piece) : M unit :=
  name ← lift (get_name p);
  description ← lift (get_description p);
  print ("You are in " +:+ name +:+ ". " +:+ description).

(** [RoomPiece.update] *)
Definition RoomPiece_update (p : Piece) : M unit := describe_room p.

(** [piece.update()], by the class of the piece *)
Definition Piece_update (p : Piece) : M unit :=
  match p with
  | PlayerPiece => PlayerPiece_update p
  | RoomPiece _ _ => RoomPiece_update p
  | CommandPiece c => Command_update c
  end.

(** ** Vocabulary of the further statements *)

(** A string made of whitespace only. *)
Fixpoint all_whitespace (s : string) : bool :=
  match s with
  | String c s' => is_whitespace c && all_whitespace s'
  | EmptyString => true
  end.

(** A string that neither starts nor ends with whitespace. *)
Definition starts_clean (s : string) : bool :=
  match s with
  | String c _ => negb (is_whitespace c)
  | EmptyString => true
  end.

Definition trimmed (s : string) : bool :=
  starts_clean s && starts_clean (String.rev s).

(** The number of empty cells of a grid. *)
Definition empty_in_row (row : list (option Piece)) : nat :=
  length (filter (fun c => c = None) row).

Fixpoint empty_in_rows (rows : list (list (option Piece))) : nat :=
  match rows with
  | [] => 0%nat
  | row :: rows' => (empty_in_row row + empty_in_rows rows')%nat
  end.

Definition empty_cells (g : MapGridModule) : nat := empty_in_rows (map_grid g).

(** [add_to_first_empty_space] called once for each of [elements], in
    order, with the answers collected. *)
Fixpoint add_each (self : nat) (elements : list Piece) : M (list bool) :=
  match elements with
  | [] => mret []
  | element :: elements' =>
      placed ← add_to_first_empty_space self element;
      rest ← add_each self elements';
      mret (placed :: rest)
  end.

(** [add_module] called once for each of [ms], in order. *)
Definition add_modules (self : nat) (ms : list Module) : M unit :=
  for_each ms (fun m => add_module self (PyModule m)).

(** [add_command] called once for each of [cs], in order. *)
Definition add_commands (self : nat) (cs : list Command) : M unit :=
  for_each cs (fun c => add_command self (PyPiece (CommandPiece c))).

(** An engine (object 0) whose only module is an empty 2x1 map grid
    (object 1). *)
Definition idle_world : World :=
  ((engine ← GameEngine_new;
    map_module ← MapGridModule_new 2 1;
    add_module engine (PyModule (MapGridRef map_module))) (initial_world [])).2.

(** ** Monad and subscript lemmas *)

Ltac munfold :=
  unfold mbind, M_bind, mret, M_ret, lift, get_world, modify, raise, print.

Lemma bind_ok {A B} (m : M A) (f : A -> M B) w a w' :
  m w = (Ok a, w') → (m ≫= f) w = f a w'.
Proof. intros H. unfold mbind, M_bind. by rewrite H. Qed.

Lemma bind_raise {A B} (m : M A) (f : A -> M B) w e w' :
  m w = (Raise e, w') → (m ≫= f) w = (Raise e, w').
Proof. intros H. unfold mbind, M_bind. by rewrite H. Qed.

Lemma py_index_inv len i n :
  py_index len i = Some n →
  (n < len)%nat ∧ (Z.of_nat n = i ∨ (Z.of_nat n = Z.of_nat len + i ∧ i < 0)).
Proof.
  unfold py_index. repeat case_decide; intros; simplify_eq; lia.
Qed.

Lemma py_index_nat len n : (n < len)%nat → py_index len (Z.of_nat n) = Some n.
Proof.
  intros H. unfold py_index. rewrite decide_True by lia. by rewrite Nat2Z.id.
Qed.

Lemma py_index_signed len i :
  - Z.of_nat len <= i < Z.of_nat len →
  py_index len i = Some (wrap (Z.of_nat len) i).
Proof.
  intros H. unfold py_index, wrap. case_decide.
  - by rewrite decide_False by lia.
  - by rewrite !decide_True by lia.
Qed.

Lemma py_index_None len i :
  Z.of_nat len <= i ∨ i < - Z.of_nat len → py_index len i = None.
Proof.
  intros H. unfold py_index. rewrite !decide_False by lia. done.
Qed.

Lemma locate_cell g lx ly cx cy :
  locate g lx ly = Some (cx, cy) → ∃ c, cell g cx cy = Some c.
Proof.
  unfold locate, cell. intros H.
  destruct (py_index (length (map_grid g)) ly) as [n|] eqn:Hy; simpl in H; [|done].
  destruct (map_grid g !! n) as [row|] eqn:Hrow; simpl in H; [|done].
  destruct (py_index (length row) lx) as [m|] eqn:Hx; simplify_eq/=.
  rewrite Hrow. simpl.
  destruct (py_index_inv _ _ _ Hx) as [Hlt _].
  apply lookup_lt_is_Some_2 in Hlt as [c Hc]. eauto.
Qed.

Lemma grid_getitem_Some self w lx ly cx cy c :
  locate (grids w self) lx ly = Some (cx, cy) →
  cell (grids w self) cx cy = Some c →
  grid_getitem self (at_xy lx ly) w = (Ok c, w).
Proof.
  unfold locate, cell, grid_getitem, list_getitem, list_item. intros H Hc. munfold. simpl.
  destruct (py_index (length (map_grid (grids w self))) ly) as [n|]; simpl in *; [|done].
  destruct (map_grid (grids w self) !! n) as [row|] eqn:Hrow; simpl in *; [|done].
  destruct (py_index (length row) lx) as [m|]; simplify_eq/=.
  rewrite Hrow in Hc. simpl in Hc. by rewrite Hc.
Qed.

Lemma grid_getitem_None self w lx ly :
  locate (grids w self) lx ly = None →
  grid_getitem self (at_xy lx ly) w
  = (Raise (mkException IndexError "list index out of range"), w).
Proof.
  unfold locate, grid_getitem, list_getitem, list_item. intros H. munfold. simpl.
  destruct (py_index (length (map_grid (grids w self))) ly) as [n|] eqn:Hy; simpl in *; [|done].
  destruct (map_grid (grids w self) !! n) as [row|] eqn:Hrow; simpl in *; [|done].
  destruct (py_index (length row) lx) as [m|]; simpl in *; done.
Qed.

Lemma grid_setitem_Some self w lx ly cx cy v :
  locate (grids w self) lx ly = Some (cx, cy) →
  grid_setitem self (at_xy lx ly) v w
  = (Ok tt, with_grid self (set_cell (grids w self) cx cy v) w).
Proof.
  unfold locate, grid_setitem, list_item, list_setitem, set_cell. intros H. munfold. simpl.
  destruct (py_index (length (map_grid (grids w self))) ly) as [n|] eqn:Hy; simpl in *; [|done].
  destruct (map_grid (grids w self) !! n) as [row|] eqn:Hrow; simpl in *; [|done].
  destruct (py_index (length row) lx) as [m|]; simplify_eq/=.
  do 3 f_equal. apply list_eq. intros i.
  destruct (decide (i = cy)) as [->|Hne].
  - rewrite list_lookup_insert_eq by (by eapply lookup_lt_Some).
    by rewrite list_lookup_alter, decide_True, Hrow.
  - rewrite list_lookup_insert_ne by done. by rewrite list_lookup_alter_ne.
Qed.

(** ** Well-formed grids *)

Section WellFormed.
Context (N M : Z) (g : MapGridModule) (Hwf : wf_grid N M g).

Lemma wf_row cy row : map_grid g !! cy = Some row → length row = Z.to_nat N.
Proof.
  destruct Hwf as (_ & _ & Hrows). rewrite Forall_lookup in Hrows. apply Hrows.
Qed.

Lemma locate_signed lx ly :
  - N <= lx < N → - M <= ly < M → locate g lx ly = Some (wrap N lx, wrap M ly).
Proof.
  destruct Hwf as (_ & Hlen & _). intros Hx Hy. unfold locate.
  rewrite py_index_signed by lia. rewrite Hlen, Z2Nat.id by lia. simpl.
  destruct (map_grid g !! wrap M ly) as [row|] eqn:Hrow; simpl.
  - rewrite py_index_signed by (rewrite (wf_row _ _ Hrow); lia).
    rewrite (wf_row _ _ Hrow), Z2Nat.id by lia. done.
  - apply lookup_ge_None in Hrow. unfold wrap in Hrow. case_decide; lia.
Qed.

Lemma locate_in_bounds lx ly :
  0 <= lx < N → 0 <= ly < M → locate g lx ly = Some (Z.to_nat lx, Z.to_nat ly).
Proof.
  intros Hx Hy. rewrite locate_signed by lia.
  unfold wrap. by rewrite !decide_False by lia.
Qed.

Lemma locate_out lx ly : N <= lx ∨ M <= ly → locate g lx ly = None.
Proof.
  destruct Hwf as (_ & Hlen & _). intros Hout. unfold locate.
  destruct (py_index (length (map_grid g)) ly) as [cy|] eqn:Hy; simpl; [|done].
  destruct (map_grid g !! cy) as [row|] eqn:Hrow; simpl; [|done].
  apply py_index_inv in Hy. pose proof (wf_row _ _ Hrow).
  rewrite py_index_None; [done|]. lia.
Qed.

Lemma cell_in_bounds cx cy :
  Z.of_nat cx < N → Z.of_nat cy < M → ∃ c, cell g cx cy = Some c.
Proof.
  intros Hx Hy. apply (locate_cell g (Z.of_nat cx) (Z.of_nat cy)).
  rewrite locate_in_bounds by lia. by rewrite !Nat2Z.id.
Qed.

Lemma cell_bounds cx cy c :
  cell g cx cy = Some c → Z.of_nat cx < N ∧ Z.of_nat cy < M.
Proof.
  destruct Hwf as (_ & Hlen & _). intros Hc. unfold cell in Hc.
  destruct (map_grid g !! cy) as [row|] eqn:Hrow; simpl in Hc; [|done].
  pose proof (wf_row _ _ Hrow). apply lookup_lt_Some in Hrow, Hc. lia.
Qed.

Lemma wf_grid_set_cell cx cy v : wf_grid N M (set_cell g cx cy v).
Proof.
  destruct Hwf as (Hsz & Hlen & Hrows). unfold wf_grid, set_cell. simpl.
  split_and!; [done|by rewrite length_alter|].
  rewrite Forall_lookup in Hrows. apply Forall_lookup. intros i row Hrow.
  rewrite list_lookup_alter in Hrow. case_decide as Heq.
  - destruct (map_grid g !! cy) as [row0|] eqn:Hrow0; simplify_eq/=.
    rewrite length_insert. eauto.
  - eauto.
Qed.

End WellFormed.

Lemma cell_set_cell_eq g cx cy c v :
  cell g cx cy = Some c → cell (set_cell g cx cy v) cx cy = Some v.
Proof.
  unfold cell, set_cell. simpl. intros Hc.
  rewrite list_lookup_alter, decide_True by done.
  destruct (map_grid g !! cy) as [row|]; simplify_eq/=.
  apply list_lookup_insert_eq. by eapply lookup_lt_Some.
Qed.

Lemma cell_set_cell_ne g cx cy cx' cy' v :
  (cx', cy') ≠ (cx, cy) → cell (set_cell g cx cy v) cx' cy' = cell g cx' cy'.
Proof.
  unfold cell, set_cell. simpl. intros Hne.
  rewrite list_lookup_alter. case_decide; [|done]. subst.
  destruct (map_grid g !! cy') as [row|]; simpl; [|done].
  apply list_lookup_insert_ne. congruence.
Qed.

Lemma set_cell_set_cell g cx cy v v' :
  set_cell (set_cell g cx cy v) cx cy v' = set_cell g cx cy v'.
Proof.
  unfold set_cell. simpl. f_equal. apply list_eq. intros i.
  rewrite !list_lookup_alter. case_decide; [|done]. rewrite decide_True by done.
  destruct (map_grid g !! cy) as [row|]; simpl; [|done].
  by rewrite list_insert_insert_eq.
Qed.

Lemma set_cell_id g cx cy v :
  cell g cx cy = Some v → set_cell g cx cy v = g.
Proof.
  unfold cell, set_cell. intros Hc. destruct g as [sz rows]. simpl in *. f_equal.
  destruct (rows !! cy) as [row|] eqn:Hrow; simplify_eq/=.
  apply list_eq. intros i. rewrite list_lookup_alter. case_decide; [|done]. subst.
  rewrite Hrow. simpl. by rewrite list_insert_id.
Qed.

(** ** [add_room] and [remove_room] at a valid location *)

Lemma valid_location_at_xy lx ly :
  valid_location (Some (at_xy lx ly)) = Some (at_xy lx ly).
Proof. done. Qed.

Lemma is_valid_at_xy v : is_valid v = true ↔ ∃ lx ly, v = at_xy lx ly.
Proof.
  destruct v as [[lx|] [ly|]]; split; try done.
  - intros _. by exists lx, ly.
  - by intros (? & ? & ?).
  - by intros (? & ? & ?).
  - by intros (? & ? & ?).
Qed.

Lemma add_room_out self w room lx ly :
  locate (grids w self) lx ly = None →
  add_room self room (Some (at_xy lx ly)) w
  = (Raise (mkException IndexError "list index out of range"), w).
Proof.
  intros H. unfold add_room. rewrite valid_location_at_xy.
  erewrite bind_raise; [done|]. by apply grid_getitem_None.
Qed.

Lemma add_room_occupied self w room lx ly cx cy q :
  locate (grids w self) lx ly = Some (cx, cy) →
  cell (grids w self) cx cy = Some (Some q) →
  add_room self room (Some (at_xy lx ly)) w = (Ok tt, write [msg_occupied lx ly] w).
Proof.
  intros H Hc. unfold add_room. rewrite valid_location_at_xy.
  erewrite bind_ok by (by eapply grid_getitem_Some). done.
Qed.

Lemma add_room_empty self w name description lx ly cx cy :
  locate (grids w self) lx ly = Some (cx, cy) →
  cell (grids w self) cx cy = Some None →
  add_room self (RoomPiece name description) (Some (at_xy lx ly)) w
  = (Ok tt, write [msg_added name lx ly]
              (with_grid self (set_cell (grids w self) cx cy (Some (RoomPiece name description))) w)).
Proof.
  intros H Hc. unfold add_room. rewrite valid_location_at_xy.
  erewrite bind_ok by (by eapply grid_getitem_Some). simpl.
  erewrite bind_ok by (by eapply grid_setitem_Some). done.
Qed.

Lemma remove_room_invalid self w location :
  valid_location location = None → remove_room self location w = (Ok tt, w).
Proof. intros H. unfold remove_room. by rewrite H. Qed.

Lemma remove_room_out self w lx ly :
  locate (grids w self) lx ly = None →
  remove_room self (Some (at_xy lx ly)) w
  = (Raise (mkException IndexError "list index out of range"), w).
Proof.
  intros H. unfold remove_room. rewrite valid_location_at_xy.
  erewrite bind_raise; [done|]. by apply grid_getitem_None.
Qed.

Lemma remove_room_empty self w lx ly cx cy :
  locate (grids w self) lx ly = Some (cx, cy) →
  cell (grids w self) cx cy = Some None →
  remove_room self (Some (at_xy lx ly)) w = (Ok tt, w).
Proof.
  intros H Hc. unfold remove_room. rewrite valid_location_at_xy.
  erewrite bind_ok by (by eapply grid_getitem_Some). done.
Qed.

Lemma remove_room_occupied self w name description lx ly cx cy :
  locate (grids w self) lx ly = Some (cx, cy) →
  cell (grids w self) cx cy = Some (Some (RoomPiece name description)) →
  remove_room self (Some (at_xy lx ly)) w
  = (Ok tt, write [msg_removed name] (with_grid self (set_cell (grids w self) cx cy None) w)).
Proof.
  intros H Hc. unfold remove_room. rewrite valid_location_at_xy.
  erewrite bind_ok by (by eapply grid_getitem_Some). simpl.
  erewrite bind_ok by (by eapply grid_setitem_Some). done.
Qed.

(** ** The scan of [add_to_first_empty_space] *)

Lemma add_to_first_empty_space_unfold self element :
  add_to_first_empty_space self element
  = (w ← get_world;
     ys ← lift (py_range (y (size_vector (grids w self))));
     r ← for_return ys (scan_row self element);
     mret (default false r)).
Proof. reflexivity. Qed.

Lemma locate_nat g cx cy c :
  cell g cx cy = Some c → locate g (Z.of_nat cx) (Z.of_nat cy) = Some (cx, cy).
Proof.
  unfold cell, locate. intros Hc.
  destruct (map_grid g !! cy) as [row|] eqn:Hrow; simplify_eq/=.
  rewrite py_index_nat by (by eapply lookup_lt_Some). simpl. rewrite Hrow. simpl.
  rewrite py_index_nat by (by eapply lookup_lt_Some). done.
Qed.

Lemma for_return_cons {A R} (a : A) (l : list A) (body : A -> M (option R)) w :
  for_return (a :: l) body w
  = match body a w with
    | (Ok (Some v), w') => (Ok (Some v), w')
    | (Ok None, w') => for_return l body w'
    | (Raise e, w') => (Raise e, w')
    end.
Proof.
  simpl. unfold mbind, M_bind. destruct (body a w) as [[[v|]|e] w']; done.
Qed.

Lemma range_cons k n :
  Z.of_nat <$> seq k (S n) = Z.of_nat k :: (Z.of_nat <$> seq (S k) n).
Proof. done. Qed.

Lemma scan_cell_spec self element w cx cy c :
  cell (grids w self) cx cy = Some c →
  scan_cell self element (Z.of_nat cy) (Z.of_nat cx) w
  = match c with
    | None => (Ok (Some true), with_grid self (set_cell (grids w self) cx cy (Some element)) w)
    | Some _ => (Ok None, w)
    end.
Proof.
  intros Hc. pose proof (locate_nat _ _ _ _ Hc) as Hloc. unfold scan_cell.
  erewrite bind_ok by (by eapply grid_getitem_Some).
  destruct c; [done|].
  erewrite bind_ok by (by eapply grid_setitem_Some). done.
Qed.

(** Scanning the cells [k], [k+1], ... of row [cy]: the first empty one is
    filled, and a row with none is left as it is. *)
Lemma scan_cells self element w cy row n : ∀ k,
  map_grid (grids w self) !! cy = Some row →
  (k + n)%nat = length row →
  let res := for_return (Z.of_nat <$> seq k n) (scan_cell self element (Z.of_nat cy)) w in
  (∃ cx, (k ≤ cx)%nat ∧ row !! cx = Some None ∧
         (∀ j c, (k ≤ j < cx)%nat → row !! j = Some c → c ≠ None) ∧
         res = (Ok (Some true), with_grid self (set_cell (grids w self) cx cy (Some element)) w))
  ∨ ((∀ j c, (k ≤ j)%nat → row !! j = Some c → c ≠ None) ∧ res = (Ok None, w)).
Proof.
  induction n as [|n IH]; intros k Hrow Hlen res; subst res.
  - right. split; [|done]. intros j c Hj Hc. apply lookup_lt_Some in Hc. lia.
  - assert (is_Some (row !! k)) as [c Hc] by (apply lookup_lt_is_Some; lia).
    assert (cell (grids w self) k cy = Some c) as Hcell by (unfold cell; by rewrite Hrow).
    rewrite range_cons, for_return_cons, (scan_cell_spec _ _ _ _ _ _ Hcell).
    destruct c as [p|].
    + destruct (IH (S k)) as [(cx & Hle & Hcx & Hbefore & Hres)|[Hall Hres]]; [done|lia| |].
      * left. exists cx. split_and!; [lia|done| |done].
        intros j c' Hj Hc'. destruct (decide (j = k)) as [->|]; [congruence|].
        apply (Hbefore j); [lia|done].
      * right. split; [|done].
        intros j c' Hj Hc'. destruct (decide (j = k)) as [->|]; [congruence|].
        apply (Hall j); [lia|done].
    + left. exists k. split_and!; [lia|done|intros; lia|done].
Qed.

Lemma scan_row_wf N M self element w cy :
  wf_grid N M (grids w self) →
  scan_row self element cy w
  = for_return (Z.of_nat <$> seq 0 (Z.to_nat N)) (scan_cell self element cy) w.
Proof.
  intros (Hsz & _ & _). unfold scan_row. munfold. by rewrite Hsz.
Qed.

(** Scanning the rows [k], [k+1], ... *)
Lemma scan_rows N M self element w n : ∀ k,
  wf_grid N M (grids w self) →
  (k + n)%nat = Z.to_nat M →
  let g := grids w self in
  let res := for_return (Z.of_nat <$> seq k n) (scan_row self element) w in
  (∃ cx cy, (k ≤ cy)%nat ∧ cell g cx cy = Some None ∧
            (∀ cx' cy' c, (k ≤ cy')%nat → before cx' cy' cx cy → cell g cx' cy' = Some c → c ≠ None) ∧
            res = (Ok (Some true), with_grid self (set_cell g cx cy (Some element)) w))
  ∨ ((∀ cx cy c, (k ≤ cy)%nat → cell g cx cy = Some c → c ≠ None) ∧ res = (Ok None, w)).
Proof.
  induction n as [|n IH]; intros k Hwf Hlen g res; subst g res.
  - right. split; [|done]. intros cx cy c Hk Hc.
    apply (cell_bounds N M _ Hwf) in Hc. lia.
  - pose proof Hwf as (_ & Hrows & Hcols).
    assert (is_Some (map_grid (grids w self) !! k)) as [row Hrow]
      by (apply lookup_lt_is_Some; lia).
    rewrite Forall_lookup in Hcols. specialize (Hcols _ _ Hrow). simpl in Hcols.
    rewrite range_cons, for_return_cons, (scan_row_wf N M) by done.
    destruct (scan_cells self element w k row (Z.to_nat N) 0%nat Hrow)
      as [(cx & _ & Hcx & Hbefore & ->)|[Hall ->]]; [lia| |].
    + left. exists cx, k. split_and!; [lia|unfold cell; by rewrite Hrow| |done].
      intros cx' cy' c Hk [Hlt|[-> Hlt]] Hc; [lia|].
      unfold cell in Hc. rewrite Hrow in Hc. apply (Hbefore cx'); [lia|done].
    + assert (∀ cx c, cell (grids w self) cx k = Some c → c ≠ None) as Hrowk.
      { intros cx c Hc. unfold cell in Hc. rewrite Hrow in Hc. apply (Hall cx); [lia|done]. }
      destruct (IH (S k)) as [(cx & cy & Hle & Hcell & Hbefore & Hres)|[Hfull Hres]]; [done|lia| |].
      * left. exists cx, cy. split_and!; [lia|done| |done].
        intros cx' cy' c Hk Hb Hc. destruct (decide (cy' = k)) as [->|]; [by eapply Hrowk|].
        apply (Hbefore cx' cy'); [lia|done|done].
      * right. split; [|done].
        intros cx cy c Hk Hc. destruct (decide (cy = k)) as [->|]; [by eapply Hrowk|].
        apply (Hfull cx cy); [lia|done].
Qed.

(** What [add_to_first_empty_space] does on a well-formed grid. *)
Lemma add_to_first_empty_space_spec N M self element w :
  wf_grid N M (grids w self) →
  let g := grids w self in
  (∃ cx cy, first_empty g cx cy ∧
            add_to_first_empty_space self element w
            = (Ok true, with_grid self (set_cell g cx cy (Some element)) w))
  ∨ (full g ∧ add_to_first_empty_space self element w = (Ok false, w)).
Proof.
  intros Hwf g. subst g. rewrite add_to_first_empty_space_unfold.
  pose proof Hwf as (Hsz & _ & _).
  destruct (scan_rows N M self element w (Z.to_nat M) 0%nat Hwf)
    as [(cx & cy & _ & Hcell & Hbefore & Hres)|[Hfull Hres]]; [lia| |].
  - left. exists cx, cy. split.
    + split; [done|]. intros cx' cy' c. apply Hbefore. lia.
    + munfold. rewrite Hsz. simpl. unfold mbind, M_bind in Hres. by rewrite Hres.
  - right. split.
    + intros cx cy c. apply Hfull. lia.
    + munfold. rewrite Hsz. simpl. unfold mbind, M_bind in Hres. by rewrite Hres.
Qed.

(** ** Rendering *)

Lemma write_write l1 l2 w : write l2 (write l1 w) = write (l1 ++ l2) w.
Proof. unfold write, with_stdout. simpl. by rewrite app_assoc. Qed.

Lemma write_nil w : write [] w = w.
Proof. destruct w. unfold write, with_stdout. simpl. by rewrite app_nil_r. Qed.

Lemma for_each_cons {A} (a : A) (l : list A) (body : A -> M unit) w :
  for_each (a :: l) body w
  = match body a w with
    | (Ok _, w') => for_each l body w'
    | (Raise e, w') => (Raise e, w')
    end.
Proof. simpl. unfold mbind, M_bind. by destruct (body a w) as [[[]|e] w']. Qed.

Lemma for_each_render rows w :
  for_each rows (fun row => cells ← lift (map_result cell_text row); print (join " | " cells)) w
  = ((render rows).1, write (render rows).2 w).
Proof.
  revert w. induction rows as [|row rows IH]; intros w.
  - simpl. by rewrite write_nil.
  - rewrite for_each_cons. simpl. munfold.
    destruct (map_result cell_text row) as [cells|e]; simpl.
    + rewrite IH. simpl. by rewrite write_write.
    + by rewrite write_nil.
Qed.

Lemma MapGridModule_execute_render self w :
  MapGridModule_execute self w
  = ((render (map_grid (grids w self))).1,
     write (Line "Map Grid:" :: (render (map_grid (grids w self))).2) w).
Proof.
  unfold MapGridModule_execute. munfold. simpl.
  rewrite for_each_render. simpl. by rewrite write_write.
Qed.

Lemma output_of_execute self w :
  output_of (MapGridModule_execute self) w
  = ((render (map_grid (grids w self))).1,
     Line "Map Grid:" :: (render (map_grid (grids w self))).2).
Proof.
  unfold output_of. rewrite MapGridModule_execute_render. simpl.
  by rewrite drop_app_length.
Qed.

Lemma map_result_cell_text row :
  (∃ cx p, row !! cx = Some (Some p) ∧
           map_result cell_text row = Raise (no_attribute (class_name p) "name"))
  ∨ (Forall (fun c => c = None) row ∧
     map_result cell_text row = Ok (replicate (length row) "Empty")).
Proof.
  induction row as [|c row IH]; simpl.
  - right. by split.
  - destruct c as [p|]; simpl.
    + left. by exists 0%nat, p.
    + destruct IH as [(cx & p & Hcx & ->)|[Hall ->]].
      * left. by exists (S cx), p.
      * right. split; [by constructor|done].
Qed.

Lemma render_rows rows :
  (∃ cx cy row p, rows !! cy = Some row ∧ row !! cx = Some (Some p) ∧
                  (render rows).1 = Raise (no_attribute (class_name p) "name"))
  ∨ (Forall (Forall (fun c => c = None)) rows ∧
     render rows = (Ok tt, (fun row => empty_line (length row)) <$> rows)).
Proof.
  induction rows as [|row rows IH]; simpl.
  - right. by split.
  - destruct (map_result_cell_text row) as [(cx & p & Hcx & ->)|[Hall ->]]; simpl.
    + left. by exists cx, 0%nat, row, p.
    + destruct IH as [(cx & cy & row' & p & Hrow & Hcx & Hres)|[Hrest ->]].
      * left. by exists cx, (S cy), row', p.
      * right. split; [by constructor|done].
Qed.

(** ** The shape of a grid is invariant *)

Lemma wf_grid_init N M : wf_grid N M (MapGridModule_init N M).
Proof.
  unfold wf_grid, MapGridModule_init. simpl. split_and!; [done|by rewrite length_replicate|].
  apply Forall_replicate. by rewrite length_replicate.
Qed.

Lemma MapGridModule_new_spec N M w :
  MapGridModule_new N M w
  = (Ok (next_ref w),
     with_grid (next_ref w) (MapGridModule_init N M) (with_next_ref (S (next_ref w)) w)).
Proof. reflexivity. Qed.

Lemma valid_location_Some location v :
  valid_location location = Some v → ∃ lx ly, v = at_xy lx ly.
Proof.
  destruct location as [v'|]; simpl; [|done].
  destruct (is_valid v') eqn:Hv; [|done]. intros [= <-]. by apply is_valid_at_xy.
Qed.

Lemma grid_setitem_None self w lx ly v :
  locate (grids w self) lx ly = None →
  ∃ e, grid_setitem self (at_xy lx ly) v w = (Raise e, w).
Proof.
  unfold locate, grid_setitem, list_item, list_setitem. intros H. munfold. simpl.
  destruct (py_index (length (map_grid (grids w self))) ly) as [n|] eqn:Hy; simpl in *; [|eauto].
  destruct (map_grid (grids w self) !! n) as [row|] eqn:Hrow; simpl in *; [|eauto].
  destruct (py_index (length row) lx) as [m|]; simpl in *; [done|eauto].
Qed.

(** The calls that follow a store in [add_room] and [remove_room] read the
    piece and print; they leave every grid as it is. *)
Lemma name_then_print_grids p (line : string -> string) w :
  grids ((attributes ← lift (get_attributes p);
          name ← lift (dict_getitem attributes "name");
          print (line name)) w).2 = grids w.
Proof.
  munfold. destruct (get_attributes p) as [attributes|e]; simpl; [|done].
  by destruct (dict_getitem attributes "name").
Qed.

Lemma wf_grid_add_to_first_empty_space N M self element w :
  wf_grid N M (grids w self) →
  wf_grid N M (grids (add_to_first_empty_space self element w).2 self).
Proof.
  intros Hwf.
  destruct (add_to_first_empty_space_spec N M self element w Hwf)
    as [(cx & cy & _ & ->)|[_ ->]]; simpl; [|done].
  rewrite fn_lookup_insert. by apply wf_grid_set_cell.
Qed.

Lemma wf_grid_add_room N M self room_piece location w :
  wf_grid N M (grids w self) →
  wf_grid N M (grids (add_room self room_piece location w).2 self).
Proof.
  intros Hwf. unfold add_room.
  destruct (valid_location location) as [v|] eqn:Hv.
  - destruct (valid_location_Some _ _ Hv) as (lx & ly & ->).
    destruct (locate (grids w self) lx ly) as [[cx cy]|] eqn:Hloc.
    + destruct (locate_cell _ _ _ _ _ Hloc) as [c Hc].
      erewrite bind_ok by (by eapply grid_getitem_Some).
      destruct c as [q|]; [done|].
      erewrite bind_ok by (by eapply grid_setitem_Some).
      rewrite name_then_print_grids. simpl.
      rewrite fn_lookup_insert. by apply wf_grid_set_cell.
    + erewrite bind_raise by (by eapply grid_getitem_None). done.
  - pose proof (wf_grid_add_to_first_empty_space N M self room_piece w Hwf) as Hwf'.
    unfold mbind, M_bind.
    destruct (add_to_first_empty_space self room_piece w) as [[[]|e] w']; done.
Qed.

Lemma wf_grid_remove_room N M self location w :
  wf_grid N M (grids w self) →
  wf_grid N M (grids (remove_room self location w).2 self).
Proof.
  intros Hwf. unfold remove_room.
  destruct (valid_location location) as [v|] eqn:Hv; [|done].
  destruct (valid_location_Some _ _ Hv) as (lx & ly & ->).
  destruct (locate (grids w self) lx ly) as [[cx cy]|] eqn:Hloc.
  - destruct (locate_cell _ _ _ _ _ Hloc) as [c Hc].
    erewrite bind_ok by (by eapply grid_getitem_Some).
    destruct c as [q|]; [|done].
    erewrite bind_ok by (by eapply grid_setitem_Some).
    rewrite name_then_print_grids. simpl.
    rewrite fn_lookup_insert. by apply wf_grid_set_cell.
  - erewrite bind_raise by (by eapply grid_getitem_None). done.
Qed.

(** Every grid that [MapGridModule(N, M)] built keeps its shape through any
    sequence of [add_room], [remove_room] and [add_to_first_empty_space]
    calls, whatever their arguments and whether they return or raise. *)
Lemma wf_grid_after_calls N M self calls : ∀ w,
  wf_grid N M (grids w self) →
  wf_grid N M (grids (foldl (after_call self) w calls) self).
Proof.
  induction calls as [|c calls IH]; intros w Hwf; [done|].
  simpl. apply IH. destruct c; simpl.
  - by apply wf_grid_add_room.
  - by apply wf_grid_remove_room.
  - by apply wf_grid_add_to_first_empty_space.
Qed.

Lemma wf_grid_new N M w :
  wf_grid N M (grids (MapGridModule_new N M w).2 (next_ref w)).
Proof.
  rewrite MapGridModule_new_spec. simpl. rewrite fn_lookup_insert. apply wf_grid_init.
Qed.

Lemma wf_grid_world : wf_grid 2 2 (grids grid_world 0).
Proof. repeat split. vm_compute. repeat constructor. Qed.

(** ** Blocked mutations, round trip and bounds of the grid *)

(** C7: on a grid of size N x M, [add_room] at an in-bounds location whose
    cell is occupied prints the "occupied" message and changes nothing else;
    [remove_room] at an in-bounds location whose cell is empty, or at a
    location that is absent or not valid, changes nothing at all.  None of
    the three raises. *)
Theorem blocked_mutations_are_noops N M self w room lx ly :
  wf_grid N M (grids w self) → 0 <= lx < N → 0 <= ly < M →
  (∀ q, cell (grids w self) (Z.to_nat lx) (Z.to_nat ly) = Some (Some q) →
        add_room self room (Some (at_xy lx ly)) w = (Ok tt, write [msg_occupied lx ly] w))
  ∧ (cell (grids w self) (Z.to_nat lx) (Z.to_nat ly) = Some None →
     remove_room self (Some (at_xy lx ly)) w = (Ok tt, w))
  ∧ (∀ location, valid_location location = None →
                 remove_room self location w = (Ok tt, w)).
Proof.
  intros Hwf Hx Hy. pose proof (locate_in_bounds N M _ Hwf lx ly Hx Hy) as Hloc.
  split_and!.
  - intros q Hq. by eapply add_room_occupied.
  - intros Hc. by eapply remove_room_empty.
  - intros location. apply remove_room_invalid.
Qed.

Lemma blocked_mutations_witness :
  add_room 0 lab2 (Some (at_xy 0 0)) grid_world = (Ok tt, write [msg_occupied 0 0] grid_world)
  ∧ remove_room 0 (Some (at_xy 1 1)) grid_world = (Ok tt, grid_world)
  ∧ remove_room 0 None grid_world = (Ok tt, grid_world)
  ∧ remove_room 0 (Some (mkVector (Some 0) None)) grid_world = (Ok tt, grid_world).
Proof.
  assert (0 <= 0 < 2 ∧ 0 <= 1 < 2) as [H0 H1] by lia.
  destruct (blocked_mutations_are_noops 2 2 0 grid_world lab2 0 0 wf_grid_world H0 H0)
    as (Hadd & _ & Hinvalid).
  destruct (blocked_mutations_are_noops 2 2 0 grid_world lab2 1 1 wf_grid_world H1 H1)
    as (_ & Hremove & _).
  split_and!.
  - apply (Hadd lab1). reflexivity.
  - apply Hremove. reflexivity.
  - apply Hinvalid. reflexivity.
  - apply Hinvalid. reflexivity.
Defined.

(** C8: adding a room at an in-bounds location whose cell is empty and then
    removing it at the same location succeeds twice, leaves the cell empty
    and the grid, like every other object, as it was; [execute] answers and
    prints after the removal what it answered and printed before the
    addition. *)
Theorem add_then_remove_round_trip N M self w name description lx ly :
  wf_grid N M (grids w self) → 0 <= lx < N → 0 <= ly < M →
  cell (grids w self) (Z.to_nat lx) (Z.to_nat ly) = Some None →
  let room := RoomPiece name description in
  ∃ w1 w2,
    add_room self room (Some (at_xy lx ly)) w = (Ok tt, w1)
    ∧ cell (grids w1 self) (Z.to_nat lx) (Z.to_nat ly) = Some (Some room)
    ∧ remove_room self (Some (at_xy lx ly)) w1 = (Ok tt, w2)
    ∧ cell (grids w2 self) (Z.to_nat lx) (Z.to_nat ly) = Some None
    ∧ same_objects w2 w
    ∧ output_of (MapGridModule_execute self) w2 = output_of (MapGridModule_execute self) w.
Proof.
  intros Hwf Hx Hy Hc room.
  pose proof (locate_in_bounds N M _ Hwf lx ly Hx Hy) as Hloc.
  set (cx := Z.to_nat lx) in *. set (cy := Z.to_nat ly) in *.
  set (g1 := set_cell (grids w self) cx cy (Some room)).
  set (w1 := write [msg_added name lx ly] (with_grid self g1 w)).
  assert (grids w1 self = g1) as Hg1 by apply fn_lookup_insert.
  assert (set_cell g1 cx cy None = grids w self) as Hback.
  { unfold g1. rewrite set_cell_set_cell. by apply set_cell_id. }
  set (w2 := write [msg_removed name] (with_grid self (set_cell (grids w1 self) cx cy None) w1)).
  assert (∀ r, grids w2 r = grids w r) as Hgrids.
  { intros r. unfold w2, w1. simpl. destruct (decide (self = r)) as [->|Hne].
    - rewrite !fn_lookup_insert. by rewrite Hback.
    - by rewrite !fn_lookup_insert_ne. }
  exists w1, w2. split_and!.
  - by apply add_room_empty.
  - rewrite Hg1. by eapply cell_set_cell_eq.
  - apply remove_room_occupied with (description := description).
    + rewrite Hg1. unfold g1. apply (locate_in_bounds N M); [by apply wf_grid_set_cell|done|done].
    + rewrite Hg1. by eapply cell_set_cell_eq.
  - by rewrite Hgrids.
  - by repeat split.
  - by rewrite !output_of_execute, Hgrids.
Qed.

Lemma add_then_remove_witness :
  ∃ w1 w2,
    add_room 0 (RoomPiece "Hall" "A hall.") (Some (at_xy 0 1)) grid_world = (Ok tt, w1)
    ∧ cell (grids w1 0) 0 1 = Some (Some (RoomPiece "Hall" "A hall."))
    ∧ remove_room 0 (Some (at_xy 0 1)) w1 = (Ok tt, w2)
    ∧ cell (grids w2 0) 0 1 = Some None
    ∧ same_objects w2 grid_world
    ∧ output_of (MapGridModule_execute 0) w2 = output_of (MapGridModule_execute 0) grid_world.
Proof.
  apply (add_then_remove_round_trip 2 2 0 grid_world "Hall" "A hall." 0 1 wf_grid_world);
    [lia|lia|reflexivity].
Defined.

(** C10: a vector is valid exactly when both coordinates are set, whatever
    their values.  On a grid of size N x M, [add_room] and [remove_room] at a
    valid location with x >= N or y >= M raise [IndexError] and leave the
    world as it was; at a location with -N <= x < N and -M <= y < M they do
    not raise, and a negative coordinate is counted back from the far edge:
    the cell addressed is ([wrap N x], [wrap M y]). *)
Theorem location_is_valid_without_bounds N M self w name description lx ly :
  wf_grid N M (grids w self) →
  let room := RoomPiece name description in
  let here := Some (at_xy lx ly) in
  let out_of_range := mkException IndexError "list index out of range" in
  (∀ v, is_valid v = true ↔ ∃ vx vy, v = at_xy vx vy)
  ∧ (N <= lx ∨ M <= ly →
     add_room self room here w = (Raise out_of_range, w)
     ∧ remove_room self here w = (Raise out_of_range, w))
  ∧ (- N <= lx < N → - M <= ly < M →
     let cx := wrap N lx in
     let cy := wrap M ly in
     (cell (grids w self) cx cy = Some None
      ∧ add_room self room here w
        = (Ok tt, write [msg_added name lx ly]
                    (with_grid self (set_cell (grids w self) cx cy (Some room)) w))
      ∧ remove_room self here w = (Ok tt, w))
     ∨ (∃ q, cell (grids w self) cx cy = Some (Some q)
        ∧ add_room self room here w = (Ok tt, write [msg_occupied lx ly] w)
        ∧ (∀ n d, q = RoomPiece n d →
                  remove_room self here w
                  = (Ok tt, write [msg_removed n]
                              (with_grid self (set_cell (grids w self) cx cy None) w))))).
Proof.
  intros Hwf room here out_of_range. split_and!.
  - apply is_valid_at_xy.
  - intros Hout. pose proof (locate_out N M _ Hwf lx ly Hout) as Hloc.
    split; [by apply add_room_out|by apply remove_room_out].
  - intros Hx Hy cx cy.
    pose proof (locate_signed N M _ Hwf lx ly Hx Hy) as Hloc.
    destruct (locate_cell _ _ _ _ _ Hloc) as [[q|] Hc].
    + right. exists q. split_and!; [done|by eapply add_room_occupied|].
      intros n d ->. by eapply remove_room_occupied.
    + left. split_and!; [done|by eapply add_room_empty|by eapply remove_room_empty].
Qed.

Lemma location_bounds_witness :
  add_room 0 lab1 (Some (at_xy 2 0)) grid_world
  = (Raise (mkException IndexError "list index out of range"), grid_world)
  ∧ remove_room 0 (Some (at_xy 0 2)) grid_world
    = (Raise (mkException IndexError "list index out of range"), grid_world)
  ∧ add_room 0 lab1 (Some (at_xy (-1) (-1))) grid_world
    = (Ok tt, write [msg_added "Lab 1" (-1) (-1)]
                (with_grid 0 (set_cell (grids grid_world 0) 1 1 (Some lab1)) grid_world))
  ∧ remove_room 0 (Some (at_xy (-1) (-2))) grid_world
    = (Ok tt, write [msg_removed "Lab 2"]
                (with_grid 0 (set_cell (grids grid_world 0) 1 0 None) grid_world)).
Proof.
  pose proof (location_is_valid_without_bounds 2 2 0 grid_world "Lab 1"
                "A dark, spooky forest with tall trees.") as H.
  split_and!.
  - destruct (H 2 0 wf_grid_world) as (_ & Hout & _). apply Hout. lia.
  - destruct (H 0 2 wf_grid_world) as (_ & Hout & _). apply Hout. lia.
  - destruct (H (-1) (-1) wf_grid_world) as (_ & _ & Hin).
    destruct Hin as [(_ & Hadd & _)|(q & Hq & _)]; [lia|lia|exact Hadd|discriminate Hq].
  - destruct (H (-1) (-2) wf_grid_world) as (_ & _ & Hin).
    destruct Hin as [(Hq & _)|(q & Hq & _ & Hremove)]; [lia|lia|discriminate Hq|].
    apply (Hremove "Lab 2" "A calm river flows here.").
    injection Hq as <-. reflexivity.
Defined.

(** ** Row-major placement *)

Example before_row_major : before 0 0 1 0 ∧ before 1 0 0 1 ∧ before 0 1 1 1.
Proof. unfold before. lia. Qed.

Lemma first_empty_not_full g cx cy : first_empty g cx cy → ¬ full g.
Proof. intros [Hc _] Hfull. by apply (Hfull cx cy None). Qed.

(** C3: on a grid of size N x M, [add_to_first_empty_space] answers without
    raising.  It answers [False] exactly when every cell is occupied, and
    then changes nothing.  Otherwise it answers [True] and puts the element
    into the first empty cell of the row-major order, the cell all of whose
    predecessors (rows above it, and cells to its left in its row) are
    occupied; nothing else changes.  Four rooms added without a location to
    a fresh 2x2 grid land in (0,0), (1,0), (0,1), (1,1), in this order,
    with nothing printed. *)
Theorem add_to_first_empty_space_row_major :
  (∀ N M self element w,
     wf_grid N M (grids w self) →
     ∃ placed w',
       add_to_first_empty_space self element w = (Ok placed, w')
       ∧ (placed = false ↔ full (grids w self))
       ∧ (placed = false → w' = w)
       ∧ (placed = true →
          ∃ cx cy, first_empty (grids w self) cx cy
                   ∧ w' = with_grid self (set_cell (grids w self) cx cy (Some element)) w))
  ∧ (∀ p1 p2 p3 p4 lines,
       ∃ w',
         (g ← MapGridModule_new 2 2;
          add_room g p1 None;; add_room g p2 None;;
          add_room g p3 None;; add_room g p4 None;;
          mret g) (initial_world lines) = (Ok 0%nat, w')
         ∧ cell (grids w' 0) 0 0 = Some (Some p1)
         ∧ cell (grids w' 0) 1 0 = Some (Some p2)
         ∧ cell (grids w' 0) 0 1 = Some (Some p3)
         ∧ cell (grids w' 0) 1 1 = Some (Some p4)
         ∧ stdout w' = []).
Proof.
  split.
  - intros N M self element w Hwf.
    destruct (add_to_first_empty_space_spec N M self element w Hwf)
      as [(cx & cy & Hfirst & ->)|[Hfull ->]].
    + eexists true, _. split_and!; [done| |done|].
      * split; [done|]. intros Hfull. by destruct (first_empty_not_full _ _ _ Hfirst).
      * intros _. by exists cx, cy.
    + eexists false, _. split_and!; done.
  - intros p1 p2 p3 p4 lines. eexists. split_and!; reflexivity.
Qed.

Lemma add_to_first_empty_space_witness :
  ∃ placed w',
    add_to_first_empty_space 0 lab1 grid_world = (Ok placed, w')
    ∧ (placed = false ↔ full (grids grid_world 0))
    ∧ (placed = false → w' = grid_world)
    ∧ (placed = true →
       ∃ cx cy, first_empty (grids grid_world 0) cx cy
                ∧ w' = with_grid 0 (set_cell (grids grid_world 0) cx cy (Some lab1)) grid_world).
Proof.
  apply (proj1 add_to_first_empty_space_row_major 2 2 0%nat lab1 grid_world wf_grid_world).
Defined.

(** ** Rendering a grid that holds a piece *)

(** C2, as the code has it: [execute] on a grid that holds a piece in some
    cell raises [AttributeError], because no piece has an attribute [name];
    it prints no line for the row of that piece. *)
Theorem MapGridModule_execute_raises_on_piece self w cx cy p :
  cell (grids w self) cx cy = Some (Some p) →
  ∃ q w',
    MapGridModule_execute self w = (Raise (no_attribute (class_name q) "name"), w')
    ∧ exc_kind (no_attribute (class_name q) "name") = AttributeError.
Proof.
  intros Hc. rewrite MapGridModule_execute_render.
  destruct (render_rows (map_grid (grids w self)))
    as [(cx' & cy' & row & q & Hrow & Hq & ->)|[Hnone _]].
  - exists q. eexists. split; reflexivity.
  - unfold cell in Hc.
    destruct (map_grid (grids w self) !! cy) as [row|] eqn:Hrow; simplify_eq/=.
    rewrite Forall_lookup in Hnone. specialize (Hnone _ _ Hrow).
    rewrite Forall_lookup in Hnone. by specialize (Hnone _ _ Hc).
Qed.

Lemma MapGridModule_execute_witness :
  ∃ q w',
    MapGridModule_execute 0 grid_world = (Raise (no_attribute (class_name q) "name"), w')
    ∧ exc_kind (no_attribute (class_name q) "name") = AttributeError.
Proof.
  apply (MapGridModule_execute_raises_on_piece 0 grid_world 0 0 lab1). reflexivity.
Defined.

(** [execute] on a grid with no piece in it prints the heading and one line
    per row, each naming [N] empty cells. *)
Lemma MapGridModule_execute_empty_grid N M self w :
  wf_grid N M (grids w self) →
  (∀ cx cy c, cell (grids w self) cx cy = Some c → c = None) →
  MapGridModule_execute self w
  = (Ok tt, write (Line "Map Grid:" :: replicate (Z.to_nat M) (empty_line (Z.to_nat N))) w).
Proof.
  intros (_ & Hlen & Hrows) Hempty. rewrite MapGridModule_execute_render.
  destruct (render_rows (map_grid (grids w self)))
    as [(cx & cy & row & q & Hrow & Hq & _)|[_ ->]].
  - specialize (Hempty cx cy (Some q)). unfold cell in Hempty.
    rewrite Hrow in Hempty. by specialize (Hempty Hq).
  - simpl. do 3 f_equal. rewrite <- Hlen.
    clear Hlen Hempty. induction Hrows as [|row rows Hrow _ IH]; [done|].
    rewrite fmap_cons, IH, Hrow. done.
Qed.

(** ** The engine's loop *)

Lemma handle_error_spec self message w :
  handle_error self message w = (Ok tt, stopped_by self message w).
Proof. reflexivity. Qed.


Lemma tick_spec self w :
  tick self w
  = match update_modules self w with
    | (Ok _, w') => (Ok tt, w')
    | (Raise e, w') => (Ok tt, stopped_by self e w')
    end.
Proof.
  unfold tick, try_except. by destruct (update_modules self w) as [[[]|e] w'].
Qed.


Lemma run_loop_unfold fuel self w :
  run_loop fuel self w
  = if running (engines w self)
    then match fuel with
         | O => (Ok None, w)
         | S fuel' =>
             match tick self w with
             | (Ok _, w1) =>
                 match run_loop fuel' self w1 with
                 | (Ok n, w2) => (Ok (S <$> n), w2)
                 | (Raise e, w2) => (Raise e, w2)
                 end
             | (Raise e, w1) => (Raise e, w1)
             end
         end
    else (Ok (Some 0%nat), w).
Proof.
  destruct fuel; simpl; munfold; by destruct (running (engines w self)).
Qed.




(** ** Dispatch *)

(** C1, as the code has it: [process_command] with an input that is a
    registered trigger raises [AttributeError], since a command has no
    [execute], and changes nothing: the command's effect, its [update], which
    would have printed a line, is not run.  With an input that is no
    registered trigger it prints the "cannot be understood" message and
    changes nothing else. *)
Theorem process_command_hit_raises_miss_prints self user_input w :
  match commands (input_maps w self) !! user_input with
  | Some command =>
      process_command self user_input w
      = (Raise (no_attribute (Command_class_name command) "execute"), w)
      ∧ stdout (Command_update command w).2 = (stdout w ++ [Line "Thank you for playing!"])%list
  | None =>
      process_command self user_input w
      = (Ok tt, write [Line "This command cannot be understood."] w)
  end.
Proof.
  unfold process_command. munfold.
  destruct (commands (input_maps w self) !! user_input) as [[engine]|]; [split|]; reflexivity.
Qed.

Lemma process_command_witness :
  process_command 1 "quit" (console_world ["quit"])
  = (Raise (no_attribute "QuitCommand" "execute"), console_world ["quit"])
  ∧ process_command 1 "  QUIT" (console_world ["quit"])
    = (Ok tt, write [Line "This command cannot be understood."] (console_world ["quit"])).
Proof.
  split.
  - exact (proj1 (process_command_hit_raises_miss_prints 1 "quit" (console_world ["quit"]))).
  - exact (process_command_hit_raises_miss_prints 1 "  QUIT" (console_world ["quit"])).
Defined.

(** C5, as the code has it: [main] with "quit" on the console ends after one
    tick with [running] false, but the line is never read and the quit
    command never runs: the map module comes first in the tick and its
    [execute] raises on "Lab 1", which the error boundary turns into a stop. *)
Theorem main_stops_before_reading_quit fuel :
  ∃ w',
    main (S fuel) (initial_world ["quit"]) = (Ok (Some 1%nat), w')
    ∧ running (engines w' 0) = false
    ∧ modules (engines w' 0) = [MapGridRef 1; InputMapRef 2]
    ∧ commands (input_maps w' 2) !! "quit" = Some (QuitCommand 0)
    ∧ stdin w' = ["quit"]
    ∧ stdout w' = [Line "Room 'Lab 1' added at (0, 0).";
                   Line "Room 'Lab 2' added at (1, 0).";
                   Line "Game starting. Type 'quit' to exit.";
                   Line "Map Grid:";
                   Line "An error occurred: 'RoomPiece' object has no attribute 'name'"].
Proof.
  exists (main (S fuel) (initial_world ["quit"])).2.
  destruct fuel; split_and!; vm_compute; reflexivity.
Qed.

(** C6, amended: [InputMapModule.execute] always raises and never gets to
    [process_command].  It writes the prompt; when a line is waiting it
    consumes the line and raises [AttributeError] for [handle_input], and at
    the end of the input it raises the [EOFError] of [input].  Nothing else
    changes. *)
Theorem InputMapModule_execute_always_raises self w :
  match stdin w with
  | line :: rest =>
      InputMapModule_execute self w
      = (Raise (no_attribute "InputMapModule" "handle_input"),
         with_stdin rest (write [Prompt ">: "] w))
  | [] =>
      InputMapModule_execute self w
      = (Raise (mkException EOFError "EOF when reading a line"), write [Prompt ">: "] w)
  end
  ∧ is_raise (InputMapModule_execute self w).1 = true
  ∧ same_objects (with_stdin (stdin w) (InputMapModule_execute self w).2) w.
Proof.
  unfold InputMapModule_execute, input, handle_input. munfold. simpl.
  destruct (stdin w) as [|line rest] eqn:Hin; simpl; rewrite ?Hin; by repeat split.
Qed.

(** C6, as stated, fails at the end of the input: the exception is then
    [EOFError], not the one for the missing attribute. *)
Lemma InputMapModule_execute_at_eof :
  (InputMapModule_execute 1 (console_world [])).1
  = Raise (mkException EOFError "EOF when reading a line")
  ∧ exc_kind (mkException EOFError "EOF when reading a line") ≠ AttributeError.
Proof. split; [reflexivity|discriminate]. Qed.

(** C9: [add_module] given an object that is no [Module], and [add_command]
    given an object that is no [Command], raise [TypeError] and leave the
    world, the module list and the registry in it, as it was. *)
Theorem add_rejects_other_classes self obj1 obj2 w :
  as_Module obj1 = None →
  as_Command obj2 = None →
  add_module self obj1 w
  = (Raise (mkException TypeError "Only instances of Module can be added as modules."), w)
  ∧ add_command self obj2 w
    = (Raise (mkException TypeError "Only instances of Command can be added as commands."), w).
Proof.
  intros H1 H2. unfold add_module, add_command. by rewrite H1, H2.
Qed.

Lemma add_rejects_witness :
  add_module 0 (PyPiece lab1) (console_world [])
  = (Raise (mkException TypeError "Only instances of Module can be added as modules."),
     console_world [])
  ∧ add_command 1 (PyPiece lab1) (console_world [])
    = (Raise (mkException TypeError "Only instances of Command can be added as commands."),
       console_world []).
Proof.
  split.
  - apply (add_rejects_other_classes 0 (PyPiece lab1) PyNone (console_world []));
      reflexivity.
  - apply (add_rejects_other_classes 1 PyNone (PyPiece lab1) (console_world []));
      reflexivity.
Defined.

(** ** Further properties of the map grid *)

Lemma cell_init N M cx cy :
  cell (MapGridModule_init N M) cx cy
  = if decide (Z.of_nat cx < N ∧ Z.of_nat cy < M) then Some None else None.
Proof.
  unfold cell, MapGridModule_init. simpl.
  destruct (decide (Z.of_nat cy < M)) as [Hy|Hy].
  - rewrite lookup_replicate_2 by lia. simpl.
    destruct (decide (Z.of_nat cx < N)) as [Hx|Hx].
    + rewrite lookup_replicate_2 by lia. by rewrite decide_True.
    + rewrite lookup_ge_None_2 by (rewrite length_replicate; lia).
      by rewrite decide_False by lia.
  - rewrite lookup_ge_None_2 by (rewrite length_replicate; lia). simpl.
    by rewrite decide_False by lia.
Qed.

Lemma empty_in_row_replicate n : empty_in_row (replicate n None) = n.
Proof.
  unfold empty_in_row. induction n as [|n IH]; [done|].
  cbn [replicate]. rewrite filter_cons_True by done. simpl. by rewrite IH.
Qed.

Lemma empty_in_rows_replicate n k :
  empty_in_rows (replicate n (replicate k None)) = (n * k)%nat.
Proof.
  induction n as [|n IH]; [done|].
  cbn [replicate empty_in_rows]. rewrite IH, empty_in_row_replicate. lia.
Qed.

(** X1: [MapGridModule(N, M)] builds a grid of the declared shape in which
    the cells are exactly the pairs (column, row) with column < N and
    row < M, all of them empty; a size that is zero or negative gives a grid
    with no cell. *)
Theorem MapGridModule_init_all_empty N M :
  wf_grid N M (MapGridModule_init N M)
  ∧ (∀ cx cy, cell (MapGridModule_init N M) cx cy
              = if decide (Z.of_nat cx < N ∧ Z.of_nat cy < M) then Some None else None)
  ∧ empty_cells (MapGridModule_init N M) = (Z.to_nat N * Z.to_nat M)%nat
  ∧ (N <= 0 ∨ M <= 0 → ∀ cx cy, cell (MapGridModule_init N M) cx cy = None).
Proof.
  split_and!.
  - apply wf_grid_init.
  - apply cell_init.
  - unfold empty_cells, MapGridModule_init. simpl.
    rewrite empty_in_rows_replicate. lia.
  - intros Hneg cx cy. rewrite cell_init. apply decide_False. lia.
Qed.

(** X2: the grid that [MapGridModule(N, M)] builds keeps M rows of N cells
    through every sequence of [add_room], [remove_room] and
    [add_to_first_empty_space] calls, whatever their arguments and whether
    they return or raise. *)
Theorem grid_shape_is_invariant N M w calls :
  let self := next_ref w in
  wf_grid N M (grids (foldl (after_call self) (MapGridModule_new N M w).2 calls) self).
Proof.
  intros self. apply wf_grid_after_calls. apply wf_grid_new.
Qed.

(** X3: on a grid of size N x M, [execute] returns without raising exactly
    when no cell holds a piece, and it then prints the heading followed by
    one line per row, each naming N empty cells. *)
Theorem MapGridModule_execute_succeeds_iff_no_piece N M self w :
  wf_grid N M (grids w self) →
  ((∀ cx cy c, cell (grids w self) cx cy = Some c → c = None)
   ↔ ∃ w', MapGridModule_execute self w = (Ok tt, w'))
  ∧ ((∀ cx cy c, cell (grids w self) cx cy = Some c → c = None) →
     MapGridModule_execute self w
     = (Ok tt, write (Line "Map Grid:" :: replicate (Z.to_nat M) (empty_line (Z.to_nat N))) w)).
Proof.
  intros Hwf. split; [split|].
  - intros Hempty. eexists. by apply (MapGridModule_execute_empty_grid N M).
  - intros [w' Hok] cx cy c Hc. rewrite MapGridModule_execute_render in Hok.
    destruct (render_rows (map_grid (grids w self)))
      as [(cx' & cy' & row & q & _ & _ & Hraise)|[Hnone _]].
    + rewrite Hraise in Hok. discriminate Hok.
    + unfold cell in Hc.
      destruct (map_grid (grids w self) !! cy) as [row|] eqn:Hrow; simplify_eq/=.
      rewrite Forall_lookup in Hnone. specialize (Hnone _ _ Hrow).
      rewrite Forall_lookup in Hnone. by apply (Hnone cx).
  - by apply MapGridModule_execute_empty_grid.
Qed.

Lemma MapGridModule_execute_succeeds_witness :
  MapGridModule_execute 1 idle_world
  = (Ok tt, write [Line "Map Grid:"; Line "Empty | Empty"] idle_world).
Proof.
  assert (wf_grid 2 1 (grids idle_world 1)) as Hwf.
  { repeat split. vm_compute. repeat constructor. }
  apply (MapGridModule_execute_succeeds_iff_no_piece 2 1 1 idle_world Hwf).
  intros [|[|cx]] [|cy] c Hc; vm_compute in Hc; congruence.
Defined.

Lemma before_trichotomy cx cy cx' cy' :
  before cx cy cx' cy' ∨ (cx, cy) = (cx', cy') ∨ before cx' cy' cx cy.
Proof.
  unfold before.
  destruct (decide (cx = cx' ∧ cy = cy')) as [[-> ->]|Hne]; [by right; left|].
  lia.
Qed.

Lemma first_empty_unique g cx cy cx' cy' :
  first_empty g cx cy → first_empty g cx' cy' → (cx, cy) = (cx', cy').
Proof.
  intros [Hc Hbefore] [Hc' Hbefore'].
  destruct (before_trichotomy cx cy cx' cy') as [Hb|[Heq|Hb]]; [|done|].
  - by destruct (Hbefore' _ _ _ Hb Hc).
  - by destruct (Hbefore _ _ _ Hb Hc').
Qed.

(** X4: [add_room] called without a location, or with one that is not
    valid, never raises on a grid of size N x M.  On a full grid it prints
    the "no room available" message and changes nothing else; otherwise it
    puts the room into the first empty cell of the row-major order and
    prints nothing. *)
Theorem add_room_without_location N M self room location w :
  wf_grid N M (grids w self) →
  valid_location location = None →
  (full (grids w self) →
   add_room self room location w
   = (Ok tt, write [Line "Currently there isn't any room available inside your grid. Please resize the grid to add more room."] w))
  ∧ (∀ cx cy, first_empty (grids w self) cx cy →
              add_room self room location w
              = (Ok tt, with_grid self (set_cell (grids w self) cx cy (Some room)) w)).
Proof.
  intros Hwf Hloc. unfold add_room. rewrite Hloc.
  destruct (add_to_first_empty_space_spec N M self room w Hwf)
    as [(cx & cy & Hfirst & Hres)|[Hfull Hres]].
  - split.
    + intros Hfull. by destruct (first_empty_not_full _ _ _ Hfirst).
    + intros cx' cy' Hfirst'.
      pose proof (first_empty_unique _ _ _ _ _ Hfirst' Hfirst) as [= -> ->].
      by rewrite (bind_ok _ _ _ _ _ Hres).
  - split.
    + intros _. by rewrite (bind_ok _ _ _ _ _ Hres).
    + intros cx cy Hfirst. by destruct (first_empty_not_full _ _ _ Hfirst).
Qed.

Lemma add_room_without_location_witness :
  add_room 0 lab1 None grid_world
  = (Ok tt, with_grid 0 (set_cell (grids grid_world 0) 0 1 (Some lab1)) grid_world)
  ∧ add_room 0 lab1 (Some (mkVector None (Some 5))) grid_world
    = (Ok tt, with_grid 0 (set_cell (grids grid_world 0) 0 1 (Some lab1)) grid_world).
Proof.
  assert (first_empty (grids grid_world 0) 0 1) as Hfirst.
  { split; [reflexivity|]. intros cx' cy' c [Hlt|[-> Hlt]] Hc; [|lia].
    assert (cy' = 0%nat) as -> by lia.
    destruct cx' as [|[|cx']]; vm_compute in Hc; congruence. }
  split.
  - apply (add_room_without_location 2 2 0 lab1 None grid_world wf_grid_world); [reflexivity|].
    exact Hfirst.
  - apply (add_room_without_location 2 2 0 lab1 (Some (mkVector None (Some 5)))
             grid_world wf_grid_world); [reflexivity|].
    exact Hfirst.
Defined.

(** X5: a command is a piece without [attributes].  [add_room] with a
    command at an in-bounds location whose cell is empty stores the command
    in the cell and then raises [AttributeError] instead of printing;
    [remove_room] at that location empties the cell again and raises the
    same way.  Both calls change the grid although they raise. *)
Theorem add_room_of_command_stores_then_raises N M self w c lx ly :
  wf_grid N M (grids w self) → 0 <= lx < N → 0 <= ly < M →
  cell (grids w self) (Z.to_nat lx) (Z.to_nat ly) = Some None →
  let cx := Z.to_nat lx in
  let cy := Z.to_nat ly in
  let e := no_attribute (Command_class_name c) "attributes" in
  let w1 := with_grid self (set_cell (grids w self) cx cy (Some (CommandPiece c))) w in
  add_room self (CommandPiece c) (Some (at_xy lx ly)) w = (Raise e, w1)
  ∧ cell (grids w1 self) cx cy = Some (Some (CommandPiece c))
  ∧ stdout w1 = stdout w
  ∧ ∃ w2, remove_room self (Some (at_xy lx ly)) w1 = (Raise e, w2)
          ∧ cell (grids w2 self) cx cy = Some None
          ∧ grids w2 self = grids w self
          ∧ stdout w2 = stdout w.
Proof.
  intros Hwf Hx Hy Hc cx cy e w1.
  pose proof (locate_in_bounds N M _ Hwf lx ly Hx Hy) as Hloc.
  assert (grids w1 self = set_cell (grids w self) cx cy (Some (CommandPiece c))) as Hg1
    by apply fn_lookup_insert.
  assert (cell (grids w1 self) cx cy = Some (Some (CommandPiece c))) as Hc1
    by (rewrite Hg1; by eapply cell_set_cell_eq).
  split_and!; [|done|done|].
  - unfold add_room. rewrite valid_location_at_xy.
    erewrite bind_ok by (by eapply grid_getitem_Some). simpl.
    erewrite bind_ok by (by eapply grid_setitem_Some). done.
  - assert (locate (grids w1 self) lx ly = Some (cx, cy)) as Hloc1.
    { rewrite Hg1. apply (locate_in_bounds N M); [by apply wf_grid_set_cell|done|done]. }
    set (g2 := set_cell (grids w1 self) cx cy None).
    assert (grids (with_grid self g2 w1) self = g2) as Hg2 by apply fn_lookup_insert.
    exists (with_grid self g2 w1). split_and!.
    + unfold remove_room. rewrite valid_location_at_xy.
      erewrite bind_ok by (by eapply grid_getitem_Some). simpl.
      erewrite bind_ok by (by eapply grid_setitem_Some). done.
    + rewrite Hg2. by eapply cell_set_cell_eq.
    + rewrite Hg2. unfold g2. rewrite Hg1, set_cell_set_cell. by apply set_cell_id.
    + done.
Qed.

Lemma add_room_of_command_witness :
  let e := no_attribute "QuitCommand" "attributes" in
  let w1 := with_grid 0 (set_cell (grids grid_world 0) 1 1
                           (Some (CommandPiece (QuitCommand 7)))) grid_world in
  add_room 0 (CommandPiece (QuitCommand 7)) (Some (at_xy 1 1)) grid_world = (Raise e, w1)
  ∧ cell (grids w1 0) 1 1 = Some (Some (CommandPiece (QuitCommand 7)))
  ∧ stdout w1 = stdout grid_world
  ∧ ∃ w2, remove_room 0 (Some (at_xy 1 1)) w1 = (Raise e, w2)
          ∧ cell (grids w2 0) 1 1 = Some None
          ∧ grids w2 0 = grids grid_world 0
          ∧ stdout w2 = stdout grid_world.
Proof.
  apply (add_room_of_command_stores_then_raises 2 2 0 grid_world (QuitCommand 7) 1 1
           wf_grid_world); [lia|lia|reflexivity].
Defined.

(** X6: [remove_room] at an in-bounds location that holds a room empties
    that cell, leaves every other cell as it was and prints the "removed"
    message; removing again at the same location does nothing; adding the
    same room back at the same location restores every object, so the two
    calls leave nothing but their two messages. *)
Theorem remove_then_add_round_trip N M self w name description lx ly :
  wf_grid N M (grids w self) → 0 <= lx < N → 0 <= ly < M →
  let room := RoomPiece name description in
  let cx := Z.to_nat lx in
  let cy := Z.to_nat ly in
  cell (grids w self) cx cy = Some (Some room) →
  ∃ w1 w2,
    remove_room self (Some (at_xy lx ly)) w = (Ok tt, w1)
    ∧ cell (grids w1 self) cx cy = Some None
    ∧ (∀ cx' cy', (cx', cy') ≠ (cx, cy) →
                  cell (grids w1 self) cx' cy' = cell (grids w self) cx' cy')
    ∧ remove_room self (Some (at_xy lx ly)) w1 = (Ok tt, w1)
    ∧ add_room self room (Some (at_xy lx ly)) w1 = (Ok tt, w2)
    ∧ same_objects w2 w
    ∧ stdout w2 = (stdout w ++ [msg_removed name; msg_added name lx ly])%list.
Proof.
  intros Hwf Hx Hy room cx cy Hc.
  pose proof (locate_in_bounds N M _ Hwf lx ly Hx Hy) as Hloc.
  set (g1 := set_cell (grids w self) cx cy None).
  set (w1 := write [msg_removed name] (with_grid self g1 w)).
  assert (grids w1 self = g1) as Hg1 by apply fn_lookup_insert.
  assert (locate (grids w1 self) lx ly = Some (cx, cy)) as Hloc1.
  { rewrite Hg1. apply (locate_in_bounds N M); [by apply wf_grid_set_cell|done|done]. }
  assert (cell (grids w1 self) cx cy = Some None) as Hc1
    by (rewrite Hg1; by eapply cell_set_cell_eq).
  assert (set_cell g1 cx cy (Some room) = grids w self) as Hback.
  { unfold g1. rewrite set_cell_set_cell. by apply set_cell_id. }
  set (w2 := write [msg_added name lx ly]
               (with_grid self (set_cell (grids w1 self) cx cy (Some room)) w1)).
  exists w1, w2. split_and!.
  - by eapply remove_room_occupied.
  - done.
  - intros cx' cy' Hne. rewrite Hg1. by apply cell_set_cell_ne.
  - by eapply remove_room_empty.
  - by apply add_room_empty.
  - repeat split; try done. intros r. unfold w2, w1. simpl.
    destruct (decide (self = r)) as [->|Hne].
    + rewrite !fn_lookup_insert. by rewrite Hback.
    + by rewrite !fn_lookup_insert_ne.
  - unfold w2, w1. simpl. by rewrite <- app_assoc.
Qed.

Lemma remove_then_add_witness :
  ∃ w1 w2,
    remove_room 0 (Some (at_xy 1 0)) grid_world = (Ok tt, w1)
    ∧ cell (grids w1 0) 1 0 = Some None
    ∧ (∀ cx' cy', (cx', cy') ≠ (1%nat, 0%nat) →
                  cell (grids w1 0) cx' cy' = cell (grids grid_world 0) cx' cy')
    ∧ remove_room 0 (Some (at_xy 1 0)) w1 = (Ok tt, w1)
    ∧ add_room 0 lab2 (Some (at_xy 1 0)) w1 = (Ok tt, w2)
    ∧ same_objects w2 grid_world
    ∧ stdout w2 = (stdout grid_world ++ [msg_removed "Lab 2"; msg_added "Lab 2" 1 0])%list.
Proof.
  apply (remove_then_add_round_trip 2 2 0 grid_world "Lab 2" "A calm river flows here." 1 0
           wf_grid_world); [lia|lia|reflexivity].
Defined.

(** ** The capacity of a grid *)

Lemma empty_in_row_cons c row :
  empty_in_row (c :: row)
  = match c with None => S (empty_in_row row) | Some _ => empty_in_row row end.
Proof.
  unfold empty_in_row. destruct c.
  - by rewrite filter_cons_False.
  - by rewrite filter_cons_True.
Qed.

Lemma empty_in_row_fill row : ∀ cx p,
  row !! cx = Some None → S (empty_in_row (<[cx := Some p]> row)) = empty_in_row row.
Proof.
  induction row as [|c row IH]; intros [|cx] p Hc; simplify_eq/=.
  - by rewrite !empty_in_row_cons.
  - rewrite !empty_in_row_cons. specialize (IH cx p Hc). destruct c; lia.
Qed.

Lemma empty_in_row_none row :
  (∀ cx c, row !! cx = Some c → c ≠ None) → empty_in_row row = 0%nat.
Proof.
  induction row as [|c row IH]; intros Hrow; [done|].
  rewrite empty_in_row_cons. destruct c as [p|].
  - apply IH. intros cx c. apply (Hrow (S cx)).
  - by destruct (Hrow 0%nat None).
Qed.

Lemma empty_cells_fill g cx cy p :
  cell g cx cy = Some None → S (empty_cells (set_cell g cx cy (Some p))) = empty_cells g.
Proof.
  unfold cell, empty_cells, set_cell. simpl. generalize (map_grid g). clear g.
  intros rows. revert cy. induction rows as [|row rows IH]; intros [|cy] Hc; [done|done| |].
  - simpl in Hc. cbn [alter list_alter empty_in_rows].
    pose proof (empty_in_row_fill row cx p Hc). lia.
  - simpl in Hc. cbn [alter list_alter empty_in_rows].
    specialize (IH cy Hc). lia.
Qed.

Lemma empty_cells_full g : full g → empty_cells g = 0%nat.
Proof.
  unfold full, cell, empty_cells. generalize (map_grid g). clear g.
  intros rows. induction rows as [|row rows IH]; intros Hfull; [done|].
  cbn [empty_in_rows]. rewrite empty_in_row_none, IH; [done| |].
  - intros cx cy c. apply (Hfull cx (S cy)).
  - intros cx c. apply (Hfull cx 0%nat).
Qed.

(** X7: a grid takes exactly as many elements as it has empty cells.  When
    [add_to_first_empty_space] is called once for each element of a list, on
    a grid of size N x M with [k] empty cells, the first [k] calls answer
    [True], every later call answers [False], no call raises, and
    [k - n] empty cells are left after [n] calls (none when [n] exceeds
    [k]). *)
Theorem grid_takes_as_many_as_it_has_empty_cells N M self elements : ∀ w,
  wf_grid N M (grids w self) →
  let k := empty_cells (grids w self) in
  let n := length elements in
  ∃ w',
    add_each self elements w
    = (Ok (replicate (k `min` n) true ++ replicate (n - k) false)%list, w')
    ∧ empty_cells (grids w' self) = (k - n)%nat
    ∧ wf_grid N M (grids w' self).
Proof.
  induction elements as [|element elements IH]; intros w Hwf k n; subst k n.
  - exists w. simpl. rewrite Nat.min_0_r, Nat.sub_0_r. done.
  - destruct (add_to_first_empty_space_spec N M self element w Hwf)
      as [(cx & cy & [Hc _] & Hres)|[Hfull Hres]].
    + set (w1 := with_grid self (set_cell (grids w self) cx cy (Some element)) w) in *.
      assert (grids w1 self = set_cell (grids w self) cx cy (Some element)) as Hg1
        by apply fn_lookup_insert.
      pose proof (empty_cells_fill _ _ _ element Hc) as Hk. rewrite <- Hg1 in Hk.
      assert (wf_grid N M (grids w1 self)) as Hwf1
        by (rewrite Hg1; by apply wf_grid_set_cell).
      destruct (IH w1 Hwf1) as (w' & Hrest & Hleft & Hwf').
      exists w'. split_and!; [|simpl; lia|done].
      cbn [add_each]. rewrite (bind_ok _ _ _ _ _ Hres), (bind_ok _ _ _ _ _ Hrest).
      rewrite <- Hk. simpl. done.
    + pose proof (empty_cells_full _ Hfull) as Hk.
      destruct (IH w Hwf) as (w' & Hrest & Hleft & Hwf').
      exists w'. split_and!; [|simpl; lia|done].
      cbn [add_each]. rewrite (bind_ok _ _ _ _ _ Hres), (bind_ok _ _ _ _ _ Hrest).
      rewrite Hk. simpl. by rewrite Nat.sub_0_r.
Qed.

Lemma grid_capacity_witness :
  ∃ w',
    add_each 0 [lab1; lab2; lab1] grid_world = (Ok [true; true; false], w')
    ∧ empty_cells (grids w' 0) = 0%nat
    ∧ wf_grid 2 2 (grids w' 0).
Proof.
  exact (grid_takes_as_many_as_it_has_empty_cells 2 2 0 [lab1; lab2; lab1]
           grid_world wf_grid_world).
Defined.

(** ** Further properties of the engine *)

Lemma for_each_app {A} (l1 l2 : list A) (body : A -> M unit) : ∀ w,
  for_each (l1 ++ l2)%list body w
  = match for_each l1 body w with
    | (Ok _, w1) => for_each l2 body w1
    | (Raise e, w1) => (Raise e, w1)
    end.
Proof.
  induction l1 as [|a l1 IH]; intros w; [done|].
  rewrite <- app_comm_cons, !for_each_cons.
  destruct (body a w) as [[[]|e] w1]; [apply IH|done].
Qed.

(** X8: [update_modules] runs the modules in the order of the list, and an
    exception ends the pass: when the list is [ms1 ++ ms2], the modules of
    [ms2] run in the world the modules of [ms1] left if all of those
    returned, and do not run at all if one of them raised. *)
Theorem update_modules_in_order_until_failure self w ms1 ms2 :
  modules (engines w self) = (ms1 ++ ms2)%list →
  update_modules self w
  = match for_each ms1 Module_execute w with
    | (Ok _, w1) => for_each ms2 Module_execute w1
    | (Raise e, w1) => (Raise e, w1)
    end.
Proof.
  intros Hms. unfold update_modules. munfold. rewrite Hms. apply for_each_app.
Qed.

Lemma update_modules_order_witness :
  let w := (main 0 (initial_world ["quit"])).2 in
  update_modules 0 w
  = (Raise (no_attribute "RoomPiece" "name"), write [Line "Map Grid:"] w).
Proof.
  intros w.
  rewrite (update_modules_in_order_until_failure 0 w [MapGridRef 1] [InputMapRef 2])
    by (vm_compute; reflexivity).
  vm_compute. reflexivity.
Defined.

Lemma InputMapModule_execute_raises self w :
  ∃ e w', InputMapModule_execute self w = (Raise e, w').
Proof.
  unfold InputMapModule_execute, input, handle_input. munfold. simpl.
  destruct (stdin w); eauto.
Qed.




(** A module that returns only printed, and prints the same in every world
    that holds the same grids. *)
Lemma Module_execute_ok m w w' :
  Module_execute m w = (Ok tt, w') →
  ∃ lines, w' = write lines w
           ∧ ∀ w0, (∀ r, grids w0 r = grids w r) →
                   Module_execute m w0 = (Ok tt, write lines w0).
Proof.
  destruct m as [r|r]; simpl.
  - rewrite MapGridModule_execute_render. intros [= Hok <-].
    eexists. split; [done|]. intros w0 Hsame.
    rewrite MapGridModule_execute_render, Hsame. rewrite Hok. done.
  - destruct (InputMapModule_execute_raises r w) as (e & w1 & ->). done.
Qed.

Lemma for_each_Module_execute_ok ms : ∀ w w',
  for_each ms Module_execute w = (Ok tt, w') →
  ∃ lines, w' = write lines w
           ∧ ∀ w0, (∀ r, grids w0 r = grids w r) →
                   for_each ms Module_execute w0 = (Ok tt, write lines w0).
Proof.
  induction ms as [|m ms IH]; intros w w'.
  - intros [= <-]. exists []. split; [by rewrite write_nil|].
    intros w0 _. by rewrite write_nil.
  - rewrite for_each_cons.
    destruct (Module_execute m w) as [[[]|e] w1] eqn:Hm; [|done].
    intros Hrest.
    destruct (Module_execute_ok _ _ _ Hm) as (lines1 & -> & Hm0).
    destruct (IH _ _ Hrest) as (lines2 & -> & Hrest0).
    exists (lines1 ++ lines2)%list. split; [by rewrite write_write|].
    intros w0 Hsame. rewrite for_each_cons, (Hm0 w0 Hsame).
    rewrite Hrest0 by (intros r; apply Hsame). by rewrite write_write.
Qed.

Lemma run_loop_forever self lines fuel : ∀ w0,
  running (engines w0 self) = true →
  (∀ w, engines w self = engines w0 self → (∀ r, grids w r = grids w0 r) →
        update_modules self w = (Ok tt, write lines w)) →
  run_loop fuel self w0 = (Ok None, write (concat (replicate fuel lines)) w0).
Proof.
  induction fuel as [|fuel IH]; intros w0 Hrun Hupdate; rewrite run_loop_unfold, Hrun.
  - by rewrite write_nil.
  - rewrite tick_spec, (Hupdate w0) by done.
    rewrite IH; [by rewrite write_write| done |].
    intros w Heng Hgrids. apply Hupdate; [done|]. intros r. by rewrite Hgrids.
Qed.

Lemma clean_tick_repeats self w w1 :
  running (engines w self) = true →
  update_modules self w = (Ok tt, w1) →
  ∃ lines,
    w1 = write lines w
    ∧ ∀ fuel w0, engines w0 self = engines w self → (∀ r, grids w0 r = grids w r) →
                 run_loop fuel self w0 = (Ok None, write (concat (replicate fuel lines)) w0).
Proof.
  intros Hrun Hupdate. unfold update_modules in Hupdate.
  destruct (for_each_Module_execute_ok _ _ _ Hupdate) as (lines & -> & Hsame).
  exists lines. split; [done|]. intros fuel w0 Heng Hgrids.
  apply run_loop_forever; [by rewrite Heng|].
  intros w2 Heng2 Hgrids2. unfold update_modules. munfold. rewrite Heng2, Heng.
  apply Hsame. intros r. by rewrite Hgrids2.
Qed.

(** X10: a tick that completes without an exception repeats for ever.  When
    [update_modules] returns in a running engine, it has only printed some
    lines, and the loop of [run] never ends: whatever the fuel, it runs out
    of fuel having printed those same lines once per tick. *)
Theorem run_loop_never_ends_after_a_clean_tick self w w1 fuel :
  running (engines w self) = true →
  update_modules self w = (Ok tt, w1) →
  ∃ lines,
    w1 = write lines w
    ∧ run_loop fuel self w = (Ok None, write (concat (replicate fuel lines)) w).
Proof.
  intros Hrun Hupdate.
  destruct (clean_tick_repeats self w w1 Hrun Hupdate) as (lines & -> & Hloop).
  exists lines. split; [done|]. by apply Hloop.
Qed.

Lemma run_loop_never_ends_witness :
  ∃ lines,
    (update_modules 0 idle_world).2 = write lines idle_world
    ∧ run_loop 3 0 idle_world
      = (Ok None, write (concat (replicate 3 lines)) idle_world).
Proof.
  apply (run_loop_never_ends_after_a_clean_tick 0 idle_world _ 3); reflexivity.
Defined.


(** ** Further properties of commands, registries and pieces *)

(** X12: [QuitCommand.update] never raises.  It prints the farewell line and
    stops the engine it was built with, and no other: that engine's module
    list, every other engine, every grid, every input map and the pending
    input stay as they were.  The loop of [run] on the stopped engine then
    ends at once, without a tick. *)
Theorem QuitCommand_update_stops_its_engine_only engine w fuel :
  ∃ w',
    Command_update (QuitCommand engine) w = (Ok tt, w')
    ∧ stdout w' = (stdout w ++ [Line "Thank you for playing!"])%list
    ∧ running (engines w' engine) = false
    ∧ modules (engines w' engine) = modules (engines w engine)
    ∧ (∀ other, other ≠ engine → engines w' other = engines w other)
    ∧ (∀ r, grids w' r = grids w r)
    ∧ (∀ r, input_maps w' r = input_maps w r)
    ∧ stdin w' = stdin w
    ∧ run_loop fuel engine w' = (Ok (Some 0%nat), w').
Proof.
  eexists. split; [reflexivity|]. simpl. rewrite fn_lookup_insert.
  split_and!; try done.
  - intros other Hne. by rewrite fn_lookup_insert_ne.
  - rewrite run_loop_unfold. simpl. by rewrite fn_lookup_insert.
Qed.

Lemma add_module_ok self m w :
  add_module self (PyModule m) w
  = (Ok tt, with_engine self (mkGameEngine (modules (engines w self) ++ [m])
                                           (running (engines w self))) w).
Proof. reflexivity. Qed.

(** X13: [add_module] called with modules never raises and keeps the module
    list in insertion order: after it was called once for each module of a
    list [ms], the engine's list is the old list followed by [ms], repeated
    modules included; the running flag and every other engine are as they
    were. *)
Theorem add_modules_appends_in_order self ms : ∀ w,
  ∃ w',
    add_modules self ms w = (Ok tt, w')
    ∧ modules (engines w' self) = (modules (engines w self) ++ ms)%list
    ∧ running (engines w' self) = running (engines w self)
    ∧ (∀ other, other ≠ self → engines w' other = engines w other).
Proof.
  unfold add_modules. induction ms as [|m ms IH]; intros w.
  - exists w. split_and!; [done|by rewrite app_nil_r|done|done].
  - rewrite for_each_cons, add_module_ok.
    destruct (IH (with_engine self (mkGameEngine (modules (engines w self) ++ [m])
                                                 (running (engines w self))) w))
      as (w' & -> & Hms & Hrun & Hother).
    simpl in Hms, Hrun, Hother. rewrite fn_lookup_insert in Hms, Hrun. simpl in Hms, Hrun.
    exists w'. split_and!; [done|by rewrite Hms, <- app_assoc|done|].
    intros other Hne. rewrite Hother by done. by rewrite fn_lookup_insert_ne.
Qed.

Lemma add_command_ok self c w :
  add_command self (PyPiece (CommandPiece c)) w
  = (Ok tt, with_input_map self
              (mkInputMapModule (<[trigger c := c]> (commands (input_maps w self)))) w).
Proof. reflexivity. Qed.

(** X14: the last command added wins.  Every command of the source has the
    trigger 'quit', so after [add_command] was called for one or more
    commands the registry maps 'quit' to the last of them and is otherwise
    as it was; a registry that started empty holds that one command and
    nothing else. *)
Theorem add_commands_keeps_the_last self cs c : ∀ w,
  ∃ w',
    add_commands self (cs ++ [c]) w = (Ok tt, w')
    ∧ commands (input_maps w' self) = <["quit" := c]> (commands (input_maps w self))
    ∧ commands (input_maps w' self) !! "quit" = Some c
    ∧ (commands (input_maps w self) = ∅ → commands (input_maps w' self) = {["quit" := c]}).
Proof.
  unfold add_commands. induction cs as [|c0 cs IH]; intros w.
  - rewrite app_nil_l, for_each_cons, add_command_ok. destruct c as [engine].
    eexists. split; [reflexivity|]. simpl. rewrite fn_lookup_insert. simpl.
    split_and!; [done|apply lookup_insert_eq|by intros ->].
  - rewrite <- app_comm_cons, for_each_cons, add_command_ok.
    destruct (IH (with_input_map self
                    (mkInputMapModule (<[trigger c0 := c0]> (commands (input_maps w self)))) w))
      as (w' & -> & Hcs & Hquit & _).
    simpl in Hcs. rewrite fn_lookup_insert in Hcs. simpl in Hcs.
    destruct c0 as [engine0]. simpl in Hcs. rewrite insert_insert_eq in Hcs.
    exists w'. split_and!; [done|done|done|].
    intros Hempty. by rewrite Hcs, Hempty.
Qed.

(** X15: of the pieces, only a command can be updated.  [update] of a
    player or of a room raises [AttributeError] on [self.name] before it
    prints anything and changes nothing; [update] of a command returns. *)
Theorem Piece_update_returns_only_for_commands p w :
  match p with
  | PlayerPiece =>
      Piece_update p w = (Raise (no_attribute "PlayerPiece" "name"), w)
  | RoomPiece _ _ =>
      Piece_update p w = (Raise (no_attribute "RoomPiece" "name"), w)
      ∧ describe_room p w = (Raise (no_attribute "RoomPiece" "name"), w)
  | CommandPiece c => ∃ w', Piece_update p w = (Ok tt, w')
  end.
Proof.
  destruct p as [| |[engine]]; [done|by split|].
  eexists. reflexivity.
Qed.

(** X16: [main] never reads the console.  Whatever lines are waiting, it
    prints the same five lines, makes one tick, which the map module's
    [execute] fails on "Lab 1", and returns with the engine stopped and the
    input untouched. *)
Theorem main_ignores_the_console lines fuel :
  ∃ w',
    main (S fuel) (initial_world lines) = (Ok (Some 1%nat), w')
    ∧ running (engines w' 0) = false
    ∧ stdin w' = lines
    ∧ stdout w' = [Line "Room 'Lab 1' added at (0, 0).";
                   Line "Room 'Lab 2' added at (1, 0).";
                   Line "Game starting. Type 'quit' to exit.";
                   Line "Map Grid:";
                   Line "An error occurred: 'RoomPiece' object has no attribute 'name'"].
Proof.
  exists (main (S fuel) (initial_world lines)).2.
  destruct fuel; split_and!; vm_compute; reflexivity.
Qed.

(** ** Normalisation of the input and [Command.validate] *)

Lemma string_app_cons a s t : String a s +:+ t = String a (s +:+ t).
Proof. reflexivity. Qed.

Lemma string_app_nil_l t : "" +:+ t = t.
Proof. reflexivity. Qed.

Lemma string_app_assoc s1 s2 s3 : (s1 +:+ s2) +:+ s3 = s1 +:+ (s2 +:+ s3).
Proof.
  induction s1 as [|a s1 IH]; [done|]. by rewrite !string_app_cons, IH.
Qed.

Lemma string_app_nil_r s : s +:+ "" = s.
Proof. induction s as [|a s IH]; [done|]. by rewrite string_app_cons, IH. Qed.

Lemma rev_app_spec s1 : ∀ s2, String.rev_app s1 s2 = String.rev s1 +:+ s2.
Proof.
  unfold String.rev. induction s1 as [|a s1 IH]; intros s2; [done|].
  cbn [String.rev_app].
  rewrite (IH (String a s2)), (IH (String a "")), string_app_assoc. done.
Qed.

Lemma rev_cons a s : String.rev (String a s) = String.rev s +:+ String a "".
Proof. unfold String.rev at 1. cbn [String.rev_app]. apply rev_app_spec. Qed.

Lemma rev_app s1 s2 : String.rev (s1 +:+ s2) = String.rev s2 +:+ String.rev s1.
Proof.
  induction s1 as [|a s1 IH].
  - by rewrite string_app_nil_l, string_app_nil_r.
  - by rewrite string_app_cons, !rev_cons, IH, string_app_assoc.
Qed.

Lemma rev_involutive s : String.rev (String.rev s) = s.
Proof.
  induction s as [|a s IH]; [done|]. by rewrite rev_cons, rev_app, IH.
Qed.

Lemma all_whitespace_app s1 s2 :
  all_whitespace (s1 +:+ s2) = all_whitespace s1 && all_whitespace s2.
Proof.
  induction s1 as [|a s1 IH]; [done|].
  rewrite string_app_cons. cbn [all_whitespace]. by rewrite IH, andb_assoc.
Qed.

Lemma all_whitespace_rev s : all_whitespace (String.rev s) = all_whitespace s.
Proof.
  induction s as [|a s IH]; [done|].
  rewrite rev_cons, all_whitespace_app, IH. cbn [all_whitespace].
  by rewrite andb_true_r, andb_comm.
Qed.

Lemma lstrip_whitespace pre s : all_whitespace pre = true → lstrip (pre +:+ s) = lstrip s.
Proof.
  induction pre as [|a pre IH]; [done|]. cbn [all_whitespace].
  intros [Ha Hpre]%andb_true_iff. rewrite string_app_cons. cbn [lstrip].
  rewrite Ha. by apply IH.
Qed.

Lemma lstrip_clean s : starts_clean s = true → lstrip s = s.
Proof. destruct s as [|a s]; simpl; [done|]. by intros ->%negb_true_iff. Qed.

Lemma lstrip_starts_clean s : starts_clean (lstrip s) = true.
Proof.
  induction s as [|a s IH]; simpl; [done|].
  destruct (is_whitespace a) eqn:Ha; [done|]. simpl. by rewrite Ha.
Qed.


Lemma strip_trimmed_padded pre s post :
  all_whitespace pre = true → all_whitespace post = true → trimmed s = true →
  strip (pre +:+ s +:+ post) = s.
Proof.
  intros Hpre Hpost [Hs Hrev]%andb_true_iff. unfold strip.
  rewrite lstrip_whitespace by done.
  destruct s as [|a s].
  - rewrite string_app_nil_l.
    rewrite <- (string_app_nil_r post), lstrip_whitespace by done. done.
  - rewrite (lstrip_clean (String a s +:+ post)) by done.
    rewrite rev_app, lstrip_whitespace by (by rewrite all_whitespace_rev).
    rewrite lstrip_clean by done. apply rev_involutive.
Qed.

Lemma rev_lstrip_starts_clean s :
  starts_clean (String.rev s) = true → starts_clean (String.rev (lstrip s)) = true.
Proof.
  induction s as [|a s IH]; [done|]. cbn [lstrip].
  destruct (is_whitespace a) eqn:Ha; [|done].
  rewrite rev_cons. intros Hclean. apply IH.
  destruct (String.rev s) as [|b t]; [|done].
  rewrite string_app_nil_l in Hclean. simpl in Hclean. by rewrite Ha in Hclean.
Qed.

Lemma strip_is_trimmed s : trimmed (strip s) = true.
Proof.
  unfold trimmed, strip. rewrite rev_involutive, lstrip_starts_clean, andb_true_r.
  apply rev_lstrip_starts_clean. rewrite rev_involutive. apply lstrip_starts_clean.
Qed.







(** [strip] is idempotent, and it returns a string unchanged exactly when
    the string neither starts nor ends with whitespace. *)
Lemma strip_is_idempotent s :
  strip (strip s) = strip s ∧ (strip s = s ↔ trimmed s = true).
Proof.
  assert (∀ t, trimmed t = true → strip t = t) as Hfix.
  { intros t Ht. rewrite <- (string_app_nil_r t) at 1.
    by apply (strip_trimmed_padded "" t ""). }
  split; [apply Hfix, strip_is_trimmed|].
  split; [intros <-; apply strip_is_trimmed|apply Hfix].
Qed.
